(** * Duplex audio session of the RecycleMaster support assistant

    A shallow embedding of [src/services/geminiService.ts] (class
    [LiveChatSession]) and of the [connect]/[disconnect] handlers of
    [src/components/ai/SupportChatbot.tsx].

    Conventions.
    - A [Float32Array] element is a [float]: NaN, an infinity, or a finite
      value carried as an exact rational.  The only arithmetic the source
      does on samples is a multiplication by 32768 = 2^15, which is exact in
      binary floating point, so nothing is rounded in the model either.
    - Times on the output device's clock ([currentTime], [duration],
      [nextStartTime]) are counted in output frames (1/24000 s), as [N].
    - Promises carry their settlement state; an [await] on a pending
      promise suspends the caller, on a rejected one it throws.
    - Calls that leave the class (browser and SDK APIs, the caller's
      callbacks) are appended to a log of effects, newest first.
    - A callback runs to its end before the next event is delivered; the
      only [await] that can park a call is the one on the session promise,
      and a call parked there resumes when the promise is fulfilled. *)

From Stdlib Require Import ZArith NArith QArith Qabs List String Bool Lia.
Import ListNotations.

Set Warnings "-abstract-large-number".

Local Open Scope Z_scope.

(** ** Frame encoder: [createPcmBlob] *)

Module PCM.

(** A JavaScript number as it sits in a [Float32Array]. *)
Inductive float : Type :=
| NaN
| Infinity (negative : bool)
| Finite (q : Q).

Definition Float32Array := list float.
Definition Int16Array := list Z.
Definition Uint8Array := list Z.

(** [x * 32768] on numbers. *)
Definition times32768 (x : float) : float :=
  match x with
  | Finite q => Finite (q * 32768)%Q
  | other => other
  end.

(** Truncation toward zero of a finite number. *)
Definition truncate (q : Q) : Z := Z.quot (Qnum q) (Zpos (Qden q)).

(** Reduction modulo 2^16 into the signed 16-bit range. *)
Definition wrap16 (z : Z) : Z :=
  let m := z mod 65536 in
  if 32768 <=? m then m - 65536 else m.

(** ECMAScript [ToInt16], the conversion done by a store into an
    [Int16Array]: NaN and the infinities give 0, a finite number is truncated
    and wrapped. *)
Definition ToInt16 (x : float) : Z :=
  match x with
  | Finite q => wrap16 (truncate q)
  | _ => 0
  end.

(** [int16[i] = v] for an index the loop keeps in range. *)
Fixpoint store (a : Int16Array) (i : nat) (v : Z) : Int16Array :=
  match a, i with
  | [], _ => []
  | _ :: t, O => v :: t
  | h :: t, S j => h :: store t j v
  end.

(** The body of [for (let i = 0; i < l; i++) int16[i] = data[i] * 32768],
    run for [todo] more iterations from index [i]. *)
Fixpoint fill (samples : Float32Array) (i todo : nat) (int16 : Int16Array)
  : Int16Array :=
  match todo with
  | O => int16
  | S todo' =>
      fill samples (S i) todo'
        (store int16 i (ToInt16 (times32768 (nth i samples NaN))))
  end.

(** [new Int16Array(l)] followed by the loop. *)
Definition scaled (samples : Float32Array) : Int16Array :=
  let l := List.length samples in
  fill samples 0 l (repeat 0 l).

(** The two bytes of a 16-bit element, low byte first. *)
Definition lowByte (w : Z) : Z := w mod 256.
Definition highByte (w : Z) : Z := (w / 256) mod 256.

(** [new Uint8Array(int16.buffer)]: the element storage seen as bytes, in
    the byte order of the platforms browsers run on. *)
Fixpoint bytesOf (a : Int16Array) : Uint8Array :=
  match a with
  | [] => []
  | w :: t => lowByte w :: highByte w :: bytesOf t
  end.

(** The 16-bit signed little-endian value held at element index [i] of a
    byte buffer. *)
Definition int16At (b : Uint8Array) (i : nat) : Z :=
  wrap16 (nth (2 * i) b 0 + 256 * nth (2 * i + 1) b 0).

(** Inverse scaling of a 16-bit value. *)
Definition unscale (w : Z) : Q := (inject_Z w / 32768)%Q.

Record Blob : Type := mkBlob { data : string; mimeType : string }.

Section Encoder.

(** [encode] of [utils/audioUtils], which is not part of the sources at
    hand: the text encoding of a byte buffer. *)
Variable encode : Uint8Array -> string.

Definition createPcmBlob (samples : Float32Array) : Blob :=
  {| data := encode (bytesOf (scaled samples));
     mimeType := "audio/pcm;rate=16000" |}.

End Encoder.

(** The bytes [createPcmBlob] hands to [encode]. *)
Definition pcmBytes (samples : Float32Array) : Uint8Array :=
  bytesOf (scaled samples).

End PCM.

(** ** Session controller and playback pipeline: [LiveChatSession] *)

Module LiveChatSession.

Local Open Scope N_scope.

(** *** Values of the browser and of the SDK *)

Record AudioContext : Type := mkAudioContext
  { sampleRate : N; closed : bool }.

Record AudioBuffer : Type := mkAudioBuffer { duration : N }.

(** The client built at module load. *)
Inductive GoogleGenAI : Type := Client (apiKey : string).

(** [let ai; if (process.env.API_KEY) ai = new GoogleGenAI(...)]: an empty
    key is as falsy as a missing one. *)
Definition ai (API_KEY : option string) : option GoogleGenAI :=
  match API_KEY with
  | None => None
  | Some key => if String.eqb key "" then None else Some (Client key)
  end.

(** The part of a [LiveServerMessage] the class reads; every field is
    optional in the SDK's types. *)
Record InlineData : Type := mkInlineData { data : option string }.
Record Part : Type := mkPart { inlineData : option InlineData }.
Record Content : Type := mkContent { parts : option (list Part) }.
Record ServerContent : Type := mkServerContent
  { modelTurn : option Content; interrupted : option bool }.
Record LiveServerMessage : Type := mkMessage
  { serverContent : option ServerContent }.

(** What a call can throw, or a promise be rejected with. *)
Inductive exception : Type :=
| Error (message : string)
| TypeError
| DecodeFailure
| NotAllowedError.

(** A [Promise<LiveSession>] with its settlement.  A pending promise
    that calls of [disconnect] wait on is [Awaited], with the number of
    these calls: they are the reactions the promise runs when it is
    fulfilled. *)
Inductive Promise : Type :=
| Pending
| Fulfilled
| Rejected (reason : exception)
| Awaited (calls : nat).

(** How a call ends: it returns (an async one resolves), it throws (an
    async one rejects), or it is parked at an [await] on a pending
    promise. *)
Inductive outcome : Type :=
| Done
| Failed (e : exception)
| Suspended.

(** Calls that leave the class. *)
Inductive effect : Type :=
| NewAudioContext (rate : N)
| LiveConnect
| GetUserMedia
| CaptureStart
| SourceStart (node : nat) (when : N) (length : N)
| SourceStop (node : nat)
| ContextClose (rate : N)
| SessionClose
| CallOnOpen
| CallOnMessage (message : LiveServerMessage)
| CallOnError
| CallOnClose.

(** *** The object *)

(** The five private fields.  [audioSources] is a JavaScript [Set]: no
    duplicates, iterated in insertion order; its elements are the
    identities of the source nodes. *)
Record LiveChatSession : Type := mkSession
  { sessionPromise : option Promise;
    inputAudioContext : option AudioContext;
    outputAudioContext : option AudioContext;
    nextStartTime : N;
    audioSources : list nat }.

(** The object in its surroundings: the log of effects, newest first, and
    the number of source nodes created so far (the next node's
    identity). *)
Record State : Type := mkState
  { this : LiveChatSession; log : list effect; created : nat }.

(** Field initialisers of the class. *)
Definition new : LiveChatSession :=
  {| sessionPromise := None;
     inputAudioContext := None;
     outputAudioContext := None;
     nextStartTime := 0;
     audioSources := [] |}.

Definition init : State := {| this := new; log := []; created := 0 |}.

Definition set_sessionPromise (v : option Promise) (o : LiveChatSession) :=
  {| sessionPromise := v;
     inputAudioContext := inputAudioContext o;
     outputAudioContext := outputAudioContext o;
     nextStartTime := nextStartTime o;
     audioSources := audioSources o |}.

Definition set_inputAudioContext (v : option AudioContext)
  (o : LiveChatSession) :=
  {| sessionPromise := sessionPromise o;
     inputAudioContext := v;
     outputAudioContext := outputAudioContext o;
     nextStartTime := nextStartTime o;
     audioSources := audioSources o |}.

Definition set_outputAudioContext (v : option AudioContext)
  (o : LiveChatSession) :=
  {| sessionPromise := sessionPromise o;
     inputAudioContext := inputAudioContext o;
     outputAudioContext := v;
     nextStartTime := nextStartTime o;
     audioSources := audioSources o |}.

Definition set_nextStartTime (v : N) (o : LiveChatSession) :=
  {| sessionPromise := sessionPromise o;
     inputAudioContext := inputAudioContext o;
     outputAudioContext := outputAudioContext o;
     nextStartTime := v;
     audioSources := audioSources o |}.

Definition set_audioSources (v : list nat) (o : LiveChatSession) :=
  {| sessionPromise := sessionPromise o;
     inputAudioContext := inputAudioContext o;
     outputAudioContext := outputAudioContext o;
     nextStartTime := nextStartTime o;
     audioSources := v |}.

Definition update (f : LiveChatSession -> LiveChatSession) (s : State) :=
  {| this := f (this s); log := log s; created := created s |}.

Definition emit (e : effect) (s : State) : State :=
  {| this := this s; log := e :: log s; created := created s |}.

(** [Set.prototype.add] and [Set.prototype.delete]. *)
Definition add (n : nat) (set : list nat) : list nat :=
  if existsb (Nat.eqb n) set then set else set ++ [n].

Definition delete (n : nat) (set : list nat) : list nat :=
  filter (fun m => negb (Nat.eqb n m)) set.

(** [context.close()]: the context ends closed; on a context that is closed
    already the call returns a rejected promise, which nobody awaits. *)
Definition close (c : AudioContext) : AudioContext :=
  {| sampleRate := sampleRate c; closed := true |}.

(** *** [connect] and the transport callbacks *)

(** [connect(onMessage, onError, onClose, onOpen)]. *)
Definition connect (ai : option GoogleGenAI) (s : State) : outcome * State :=
  match ai with
  | None => (Failed (Error "API key not configured."), s)
  | Some _ =>
      match sessionPromise (this s) with
      | Some _ => (Done, s)
      | None =>
          let s1 := emit (NewAudioContext 24000) s in
          let s2 :=
            update (set_outputAudioContext
                      (Some {| sampleRate := 24000; closed := false |})) s1 in
          let s3 := emit LiveConnect s2 in
          (Done, update (set_sessionPromise (Some Pending)) s3)
      end
  end.

(** The [onopen] callback; [granted] is the answer of
    [getUserMedia({ audio: true })].  A refusal rejects the [await], and the
    rest of the callback is not run. *)
Definition onopen (granted : bool) (s : State) : outcome * State :=
  let s1 := emit (NewAudioContext 16000) s in
  let s2 :=
    update (set_inputAudioContext
              (Some {| sampleRate := 16000; closed := false |})) s1 in
  let s3 := emit GetUserMedia s2 in
  if granted
  then (Done, emit CallOnOpen (emit CaptureStart s3))
  else (Failed NotAllowedError, s3).

(** [onerror: onError] and [onclose: onClose]: the caller's callbacks are
    handed to the SDK as they are. *)
Definition onerror (s : State) : outcome * State := (Done, emit CallOnError s).

Definition onclose (s : State) : outcome * State := (Done, emit CallOnClose s).

(** *** Playback *)

(** [message.serverContent?.modelTurn?.parts[0]?.inlineData.data]: an
    optional chain stops at a missing [serverContent], [modelTurn] or
    [parts[0]]; a missing [parts] or [inlineData] is dereferenced. *)
Definition base64Audio (message : LiveServerMessage)
  : exception + option string :=
  match serverContent message with
  | None => inr None
  | Some content =>
      match modelTurn content with
      | None => inr None
      | Some turn =>
          match parts turn with
          | None => inl TypeError
          | Some [] => inr None
          | Some (part :: _) =>
              match inlineData part with
              | None => inl TypeError
              | Some blob => inr (data blob)
              end
          end
      end
  end.

(** Truthiness of an optional string. *)
Definition truthy (v : option string) : option string :=
  match v with
  | Some text => if String.eqb text "" then None else Some text
  | None => None
  end.

(** [message.serverContent?.interrupted] as a condition. *)
Definition isInterrupted (message : LiveServerMessage) : bool :=
  match serverContent message with
  | Some content =>
      match interrupted content with
      | Some flag => flag
      | None => false
      end
  | None => false
  end.

(** The loop of [interruptAudio] over the values of the set: each one is
    stopped and deleted. *)
Fixpoint stopAll (sources : list nat) (s : State) : State :=
  match sources with
  | [] => s
  | source :: rest =>
      let s1 := emit (SourceStop source) s in
      let s2 :=
        update (fun o => set_audioSources (delete source (audioSources o)) o)
          s1 in
      stopAll rest s2
  end.

Definition interruptAudio (s : State) : State :=
  update (set_nextStartTime 0) (stopAll (audioSources (this s)) s).

Section Decoder.

(** [decode] and [decodeAudioData] of [utils/audioUtils], which is not
    part of the sources at hand.  [decode] turns the base64 text into bytes
    and [decodeAudioData] the bytes into a buffer; either may fail. *)
Variable decode : string -> option (list Z).
Variable decodeAudioData :
  list Z -> AudioContext -> N -> N -> option AudioBuffer.

(** Lines 125 to 133 of [handleAudio]: a source node is created for the
    buffer, started at the cursor, and the cursor moves past it. *)
Definition schedule (audioBuffer : AudioBuffer) (s : State) : State :=
  let source := created s in
  let s1 :=
    {| this := this s; log := log s; created := S (created s) |} in
  let s2 :=
    emit (SourceStart source (nextStartTime (this s1)) (duration audioBuffer))
      s1 in
  let s3 :=
    update (fun o =>
              set_nextStartTime (nextStartTime o + duration audioBuffer) o)
      s2 in
  update (fun o => set_audioSources (add source (audioSources o)) o) s3.

(** [handleAudio(message)]; [currentTime] is the reading of
    [outputAudioContext.currentTime]. *)
Definition handleAudio (currentTime : N) (message : LiveServerMessage)
  (s : State) : outcome * State :=
  match outputAudioContext (this s) with
  | None => (Done, s)
  | Some context =>
      match base64Audio message with
      | inl e => (Failed e, s)
      | inr found =>
          match truthy found with
          | None => (Done, s)
          | Some text =>
              let s1 :=
                update (fun o =>
                          set_nextStartTime
                            (N.max (nextStartTime o) currentTime) o) s in
              match decode text with
              | None => (Failed DecodeFailure, s1)
              | Some bytes =>
                  match decodeAudioData bytes context 24000 1 with
                  | None => (Failed DecodeFailure, s1)
                  | Some audioBuffer => (Done, schedule audioBuffer s1)
                  end
              end
          end
      end
  end.

(** The buffer [handleAudio] gets out of a message, when it gets one. *)
Definition decoded (context : AudioContext) (message : LiveServerMessage)
  : option AudioBuffer :=
  match base64Audio message with
  | inl _ => None
  | inr found =>
      match truthy found with
      | None => None
      | Some text =>
          match decode text with
          | None => None
          | Some bytes => decodeAudioData bytes context 24000 1
          end
      end
  end.

(** The [onmessage] callback. *)
Definition onmessage (currentTime : N) (message : LiveServerMessage)
  (s : State) : outcome * State :=
  let s1 := emit (CallOnMessage message) s in
  match handleAudio currentTime message s1 with
  | (Done, s2) =>
      if isInterrupted message then (Done, interruptAudio s2) else (Done, s2)
  | failed => failed
  end.

(** The listener of a source's [ended] event. *)
Definition ended (source : nat) (s : State) : State :=
  update (fun o => set_audioSources (delete source (audioSources o)) o) s.

(** *** [disconnect] *)

(** [context?.close()] on a field. *)
Definition closeContext (field : option AudioContext) (s : State)
  : option AudioContext * State :=
  match field with
  | None => (None, s)
  | Some context =>
      (Some (close context), emit (ContextClose (sampleRate context)) s)
  end.

(** The statements of [disconnect] after its [await]; [session] tells
    whether the awaited value is a session. *)
Definition teardown (session : bool) (s : State) : State :=
  let s1 := if session then emit SessionClose s else s in
  let (input, s2) := closeContext (inputAudioContext (this s1)) s1 in
  let s3 := update (set_inputAudioContext input) s2 in
  let (output, s4) := closeContext (outputAudioContext (this s3)) s3 in
  let s5 := update (set_outputAudioContext output) s4 in
  let s6 := update (set_sessionPromise None) s5 in
  interruptAudio s6.

(** [disconnect()].  On a promise that is still pending the call is
    parked at its [await], and counted among those the promise will
    resume. *)
Definition disconnect (s : State) : outcome * State :=
  match sessionPromise (this s) with
  | None => (Done, teardown false s)
  | Some Fulfilled => (Done, teardown true s)
  | Some (Rejected reason) => (Failed reason, s)
  | Some Pending =>
      (Suspended, update (set_sessionPromise (Some (Awaited 1))) s)
  | Some (Awaited calls) =>
      (Suspended, update (set_sessionPromise (Some (Awaited (S calls)))) s)
  end.

(** The SDK settles the promise [connect] stored.  When it is fulfilled,
    every call of [disconnect] parked on it resumes with the session and
    runs its statements, one call after the other; when it is rejected,
    each of these calls throws at its [await] and does nothing. *)
Definition settle (result : Promise) (s : State) : State :=
  match sessionPromise (this s), result with
  | Some Pending, Fulfilled =>
      update (set_sessionPromise (Some Fulfilled)) s
  | Some Pending, Rejected reason =>
      update (set_sessionPromise (Some (Rejected reason))) s
  | Some (Awaited calls), Fulfilled =>
      Nat.iter calls (teardown true)
        (update (set_sessionPromise (Some Fulfilled)) s)
  | Some (Awaited calls), Rejected reason =>
      update (set_sessionPromise (Some (Rejected reason))) s
  | _, _ => s
  end.

(** *** Runs *)

Inductive event : Type :=
| Connect
| Settle (result : Promise)
| Open (granted : bool)
| Message (currentTime : N) (message : LiveServerMessage)
| TransportError
| TransportClose
| Ended (source : nat)
| Disconnect.

Definition step (ai : option GoogleGenAI) (e : event) (s : State) : State :=
  match e with
  | Connect => snd (connect ai s)
  | Settle result => settle result s
  | Open granted => snd (onopen granted s)
  | Message currentTime message => snd (onmessage currentTime message s)
  | TransportError => snd (onerror s)
  | TransportClose => snd (onclose s)
  | Ended source => ended source s
  | Disconnect => snd (disconnect s)
  end.

Definition run (ai : option GoogleGenAI) (events : list event) (s : State)
  : State :=
  fold_left (fun s e => step ai e s) events s.

(** The states a session can be in, whatever the SDK and the caller do. *)
Definition reachable (ai : option GoogleGenAI) (s : State) : Prop :=
  exists events, s = run ai events init.

(** Messages in arrival order, each handled to completion before the next. *)
Fixpoint handleAll (arrivals : list (N * LiveServerMessage)) (s : State)
  : State :=
  match arrivals with
  | [] => s
  | (currentTime, message) :: rest =>
      handleAll rest (snd (handleAudio currentTime message s))
  end.

End Decoder.

(** *** Observations *)

(** A context field holds no open context. *)
Definition contextReleased (field : option AudioContext) : bool :=
  match field with
  | None => true
  | Some context => closed context
  end.

(** Nothing is held: no transport promise, no open context. *)
Definition released (o : LiveChatSession) : bool :=
  match sessionPromise o with
  | None =>
      contextReleased (inputAudioContext o)
      && contextReleased (outputAudioContext o)
  | Some _ => false
  end.

Definition isMicrophoneRequest (e : effect) : bool :=
  match e with GetUserMedia => true | _ => false end.

Definition isContextCreation (rate : N) (e : effect) : bool :=
  match e with NewAudioContext r => N.eqb r rate | _ => false end.

(** Counts over a log. *)
Definition microphoneAcquisitions (l : list effect) : nat :=
  List.length (filter isMicrophoneRequest l).

Definition outputAcquisitions (l : list effect) : nat :=
  List.length (filter (isContextCreation 24000) l).

Definition inputAcquisitions (l : list effect) : nat :=
  List.length (filter (isContextCreation 16000) l).

(** The start times a log records, oldest first. *)
Fixpoint startTimes (l : list effect) : list N :=
  match l with
  | [] => []
  | SourceStart _ when _ :: older => startTimes older ++ [when]
  | _ :: older => startTimes older
  end.

End LiveChatSession.

(** ** The caller: [SupportChatbot] *)

Module SupportChatbot.

Import LiveChatSession.

Inductive ConnectionState : Type :=
| disconnected
| connecting
| connected
| error.

(** The component's connection state and its reference to the session
    object, with the surroundings the session runs in. *)
Record Page : Type := mkPage
  { connectionState : ConnectionState;
    liveChatSessionRef : option LiveChatSession;
    effects : list effect;
    nodes : nat }.

Definition mount : Page :=
  {| connectionState := disconnected;
     liveChatSessionRef := None;
     effects := [];
     nodes := 0 |}.

(** The [connect] handler; [granted] is the answer to its own
    [getUserMedia({ audio: true })].  Anything thrown inside the [try],
    by the microphone request or by the session's [connect], ends in the
    error state. *)
Definition connect (ai : option GoogleGenAI) (granted : bool) (p : Page)
  : Page :=
  let session :=
    match liveChatSessionRef p with
    | Some o => o
    | None => new
    end in
  let asked := GetUserMedia :: effects p in
  if granted
  then
    match LiveChatSession.connect ai
            {| this := session; log := asked; created := nodes p |} with
    | (Done, s) =>
        {| connectionState := connecting;
           liveChatSessionRef := Some (this s);
           effects := log s;
           nodes := created s |}
    | (_, s) =>
        {| connectionState := error;
           liveChatSessionRef := Some (this s);
           effects := log s;
           nodes := created s |}
    end
  else
    {| connectionState := error;
       liveChatSessionRef := Some session;
       effects := asked;
       nodes := nodes p |}.

(** A transport callback of the referenced session, followed by the
    component's reaction to the call it receives.  When the component has
    dropped its reference the callback is that of the session it dropped:
    the callbacks are the component's own and it reacts all the same.  The
    page does not keep the fields of a dropped session; the callbacks
    delivered here end and log the same whatever these fields are. *)
Definition deliver (handler : State -> outcome * State)
  (reaction : outcome -> ConnectionState -> ConnectionState) (p : Page)
  : Page :=
  match liveChatSessionRef p with
  | None =>
      let (result, s) :=
        handler {| this := new; log := effects p; created := nodes p |} in
      {| connectionState := reaction result (connectionState p);
         liveChatSessionRef := None;
         effects := log s;
         nodes := created s |}
  | Some o =>
      let (result, s) :=
        handler {| this := o; log := effects p; created := nodes p |} in
      {| connectionState := reaction result (connectionState p);
         liveChatSessionRef := Some (this s);
         effects := log s;
         nodes := created s |}
  end.

(** [onOpen] is called at the end of the session's [onopen] only. *)
Definition transportOpened (granted : bool) : Page -> Page :=
  deliver (onopen granted)
    (fun result before =>
       match result with Done => connected | _ => before end).

(** [onError]: [setConnectionState('error')]. *)
Definition transportErrored : Page -> Page :=
  deliver onerror (fun _ _ => error).

(** [onClose]: [setConnectionState('disconnected')]. *)
Definition transportClosed : Page -> Page :=
  deliver onclose (fun _ _ => disconnected).

(** The [disconnect] handler: the session's [disconnect] is called and not
    awaited, the reference is dropped and the state set.  What a parked
    [disconnect] does once its promise settles happens to an object the
    component no longer refers to, and is not followed here. *)
Definition disconnect (p : Page) : Page :=
  match liveChatSessionRef p with
  | None =>
      {| connectionState := disconnected;
         liveChatSessionRef := None;
         effects := effects p;
         nodes := nodes p |}
  | Some o =>
      let s :=
        snd (LiveChatSession.disconnect
               {| this := o; log := effects p; created := nodes p |}) in
      {| connectionState := disconnected;
         liveChatSessionRef := None;
         effects := log s;
         nodes := created s |}
  end.

End SupportChatbot.

(** ** Inputs to run the model on *)

Module Examples.

Import LiveChatSession.

Local Open Scope N_scope.

(** Decoders to run the model with: as many frames as the bytes hold 16-bit
    values, no buffer from an odd number of bytes or from none. *)
Definition exampleDecode (text : string) : option (list Z) :=
  Some (map (fun c => Z.of_N (Ascii.N_of_ascii c)) (list_ascii_of_string text)).

Definition exampleDecodeAudioData (bytes : list Z) (context : AudioContext)
  (rate channels : N) : option AudioBuffer :=
  let halves := N.of_nat (List.length bytes) in
  if (halves mod 2 =? 0) && (0 <? halves / 2 / channels)
  then Some {| duration := halves / 2 / channels |}
  else None.

(** A message whose first part carries [text] as inline audio. *)
Definition audioMessage (text : string) (flag : option bool)
  : LiveServerMessage :=
  {| serverContent :=
       Some {| modelTurn :=
                 Some {| parts :=
                           Some [ {| inlineData :=
                                       Some {| data := Some text |} |} ] |};
               interrupted := flag |} |}.

(** A message that only signals an interruption. *)
Definition interruption : LiveServerMessage :=
  {| serverContent :=
       Some {| modelTurn := None; interrupted := Some true |} |}.

(** The session right after a first [connect]. *)
Definition connectingState : State :=
  snd (connect (Some (Client "key")) init).

(** The session once the transport is open and a first buffer plays. *)
Definition connectedState : State :=
  run exampleDecode exampleDecodeAudioData (Some (Client "key"))
    [Connect; Settle Fulfilled; Open true;
     Message 7 (audioMessage "abcd" None)]
    init.

(** The component connected through its own [connect]. *)
Definition connectedPage : SupportChatbot.Page :=
  SupportChatbot.transportOpened true
    (SupportChatbot.connect (Some (Client "key")) true SupportChatbot.mount).

End Examples.

(** ** The transcript of [SupportChatbot] *)

Module Transcript.

(** The part of a [LiveServerMessage] the component's [onMessage] reads. *)
Record Transcription : Type := mkTranscription { text : option string }.

Record ServerContent : Type := mkServerContent
  { inputTranscription : option Transcription;
    outputTranscription : option Transcription;
    turnComplete : option bool }.

Record Message : Type := mkMessage { serverContent : option ServerContent }.

Inductive Speaker : Type := user | model.

Record ChatMessage : Type := mkChatMessage
  { speaker : Speaker; said : string }.

(** The three pieces of state the callback updates. *)
Record Chat : Type := mkChat
  { history : list ChatMessage;
    currentUserInput : string;
    currentModelOutput : string }.

(** [prev + transcription.text]: a missing [text] is concatenated as the
    word it converts to. *)
Definition appended (prev : string) (t : Transcription) : string :=
  match text t with
  | Some fragment => prev ++ fragment
  | None => prev ++ "undefined"
  end.

Section Callback.

(** [String.prototype.trim]. *)
Variable trim : string -> string.

(** The values of [currentUserInput] and [currentModelOutput] in the render
    whose [onMessage] was handed to the session: the callback is created by
    [useCallback] and passed to [connect] once, so these are the values it
    reads for the lifetime of the transport, while the state setters with
    an updater function see the state of the moment. *)
Variable capturedUserInput capturedModelOutput : string.

(** The updater passed to [setHistory]. *)
Definition completed (prev : list ChatMessage) : list ChatMessage :=
  let withUser :=
    if String.eqb (trim capturedUserInput) "" then prev
    else prev ++ [ {| speaker := user; said := trim capturedUserInput |} ] in
  if String.eqb (trim capturedModelOutput) "" then withUser
  else withUser ++ [ {| speaker := model; said := trim capturedModelOutput |} ].

(** [onMessage(message)]. *)
Definition onMessage (message : Message) (c : Chat) : Chat :=
  match serverContent message with
  | None => c
  | Some content =>
      let c1 :=
        match inputTranscription content with
        | Some t =>
            {| history := history c;
               currentUserInput := appended (currentUserInput c) t;
               currentModelOutput := currentModelOutput c |}
        | None => c
        end in
      let c2 :=
        match outputTranscription content with
        | Some t =>
            {| history := history c1;
               currentUserInput := currentUserInput c1;
               currentModelOutput := appended (currentModelOutput c1) t |}
        | None => c1
        end in
      match turnComplete content with
      | Some true =>
          {| history := completed (history c2);
             currentUserInput := "";
             currentModelOutput := "" |}
      | _ => c2
      end
  end.

(** Messages delivered one after the other. *)
Definition onMessages (messages : list Message) (c : Chat) : Chat :=
  fold_left (fun c message => onMessage message c) messages c.

End Callback.

(** What a message adds to each of the two running transcripts. *)
Definition userFragment (message : Message) : string :=
  match serverContent message with
  | Some content =>
      match inputTranscription content with
      | Some t => appended "" t
      | None => ""
      end
  | None => ""
  end.

Definition modelFragment (message : Message) : string :=
  match serverContent message with
  | Some content =>
      match outputTranscription content with
      | Some t => appended "" t
      | None => ""
      end
  | None => ""
  end.

Definition completesTurn (message : Message) : bool :=
  match serverContent message with
  | Some content =>
      match turnComplete content with
      | Some flag => flag
      | None => false
      end
  | None => false
  end.

End Transcript.

(** ** The one-shot request: [getDeviceSettingsForMaterial] *)

Module GeminiService.

Import LiveChatSession.

(** A part of the request's content. *)
Inductive RequestPart : Type :=
| InlineData (mimeType data : string)
| Text (text : string).

(** The messages of the two [Error]s the function throws. *)
Definition notConfigured : string := "API key not configured.".
Definition failed : string :=
  "Failed to get AI-powered settings. Please try again.".

Section Request.

(** The value [JSON.parse] returns. *)
Variable Settings : Type.

(** [ai.models.generateContent] on the parts sent: it rejects, or resolves
    to a response whose [text] may be missing. *)
Variable generateContent : list RequestPart -> exception + option string.
Variable trim : string -> string.
(** [JSON.parse], which throws on text that is not JSON. *)
Variable JSONparse : string -> option Settings.

(** [parts]: the prompt, with the image put in front when there is one. *)
Definition requestParts (prompt : string) (imageBase64 : option string)
  : list RequestPart :=
  let parts := [Text prompt] in
  match truthy imageBase64 with
  | Some image => InlineData "image/jpeg" image :: parts
  | None => parts
  end.

(** [getDeviceSettingsForMaterial(prompt, imageBase64)]: the requests sent
    and how the call ends, with the settings or with the message of the
    [Error] thrown. *)
Definition getDeviceSettingsForMaterial (ai : option GoogleGenAI)
  (prompt : string) (imageBase64 : option string)
  : list (list RequestPart) * (string + Settings) :=
  match ai with
  | None => ([], inl notConfigured)
  | Some _ =>
      let parts := requestParts prompt imageBase64 in
      ([parts],
       match generateContent parts with
       | inl _ => inl failed
       | inr None => inl failed
       | inr (Some text) =>
           match JSONparse (trim text) with
           | Some settings => inr settings
           | None => inl failed
           end
       end)
  end.

End Request.

End GeminiService.

(** ** The caller of the one-shot request: [DeviceControlAI] *)

Module DeviceControlAI.

Import LiveChatSession.
Import GeminiService.

(** A value as [JSON.parse] returns it.  Nothing checks that the reply
    of the service is an object of settings: the state [result] holds
    whatever was parsed, [null] included. *)
Set Warnings "-register-all".

Inductive JSON : Type :=
| JNull
| JBoolean (b : bool)
| JNumber (q : Q)
| JString (s : string)
| JArray (items : list JSON)
| JObject (members : list (string * JSON)).

(** Truthiness of a value, as in [result && ...]. *)
Definition isTruthy (v : JSON) : bool :=
  match v with
  | JNull => false
  | JBoolean b => b
  | JNumber q => negb (Qeq_bool q 0)
  | JString s => negb (String.eqb s "")
  | JArray _ => true
  | JObject _ => true
  end.

(** A chosen file, as what a [FileReader] makes of it: a data URL, or
    nothing when reading fails. *)
Record File : Type := mkFile { readAsDataURL : option string }.

(** The component's state. *)
Record Component : Type := mkComponent
  { prompt : string;
    image : option File;
    isLoading : bool;
    error : string;
    result : JSON }.

Definition comma : Ascii.ascii := Ascii.ascii_of_nat 44.
Definition quote : string := String (Ascii.ascii_of_nat 34) EmptyString.

(** The text up to the first comma. *)
Fixpoint untilComma (s : string) : string :=
  match s with
  | EmptyString => EmptyString
  | String c rest =>
      if Ascii.eqb c comma then EmptyString else String c (untilComma rest)
  end.

(** The text after the first comma, when there is a comma. *)
Fixpoint afterComma (s : string) : option string :=
  match s with
  | EmptyString => None
  | String c rest => if Ascii.eqb c comma then Some rest else afterComma rest
  end.

(** [url.split(',')[1]]. *)
Definition secondField (url : string) : option string :=
  option_map untilComma (afterComma url).

(** [err.message || 'An unknown error occurred.']; [message] is what the
    thrown value has under that name, if anything. *)
Definition shown (message : option string) : string :=
  match truthy message with
  | Some text => text
  | None => "An unknown error occurred."
  end.

Section Handlers.

Variable ai : option GoogleGenAI.
Variable generateContent : list RequestPart -> exception + option string.
Variable trim : string -> string.
Variable JSONparse : string -> option JSON.
(** The translation function of the language context. *)
Variable t : string -> string.

(** The prompt sent with the request. *)
Definition fullPrompt (prompt : string) : string :=
  "Analyze this material for recycling. Description: " ++ quote
    ++ (if String.eqb prompt "" then "No description provided." else prompt)
    ++ quote.

(** The state once the [try] of [handleSubmit] has ended one way or the
    other and [finally] has run. *)
Definition settled (c : Component) (error : string) (result : JSON)
  : Component :=
  {| prompt := prompt c;
     image := image c;
     isLoading := false;
     error := error;
     result := result |}.

(** [handleSubmit()], run to its end: the requests sent and the state
    left.  Before the [try] the state is set to loading, with no error and
    no result. *)
Definition handleSubmit (c : Component)
  : list (list RequestPart) * Component :=
  match String.eqb (prompt c) "", image c with
  | true, None =>
      ([],
       {| prompt := prompt c;
          image := image c;
          isLoading := isLoading c;
          error := t "ai.errorProvideInput";
          result := result c |})
  | _, chosen =>
      let read :=
        match chosen with
        | None => Some None
        | Some file =>
            match readAsDataURL file with
            | Some url => Some (secondField url)
            | None => None
            end
        end in
      match read with
      | None => ([], settled c (shown None) JNull)
      | Some imageBase64 =>
          match getDeviceSettingsForMaterial JSON generateContent trim
                  JSONparse ai (fullPrompt (prompt c)) imageBase64 with
          | (sent, inr settings) => (sent, settled c "" settings)
          | (sent, inl message) =>
              (sent, settled c (shown (Some message)) JNull)
          end
      end
  end.

End Handlers.

End DeviceControlAI.

(** ** Invariants and further inputs *)

Module Invariants.

Import LiveChatSession.

(** The live set holds each source once, and only sources that were
    created, started and not stopped; whatever was stopped was created. *)
Definition liveSetConsistent (s : State) : Prop :=
  NoDup (audioSources (this s)) /\
  (forall n, In n (audioSources (this s)) ->
     (n < created s)%nat /\
     (exists when length, In (SourceStart n when length) (log s)) /\
     ~ In (SourceStop n) (log s)) /\
  (forall n, In (SourceStop n) (log s) -> (n < created s)%nat).

(** A stored promise comes with an open output context, and the contexts
    the session holds run at the rates it asked for. *)
Definition contextsConsistent (o : LiveChatSession) : Prop :=
  (sessionPromise o <> None ->
   exists c, outputAudioContext o = Some c /\ closed c = false) /\
  (forall c, outputAudioContext o = Some c -> sampleRate c = 24000%N) /\
  (forall c, inputAudioContext o = Some c -> sampleRate c = 16000%N).

(** The events after which the cursor may be lower than before: an
    interruption, a [disconnect], and the fulfilment that resumes a parked
    [disconnect]. *)
Definition resetsCursor (s : State) (e : event) : bool :=
  match e with
  | Message _ message => isInterrupted message
  | Disconnect => true
  | Settle Fulfilled =>
      match sessionPromise (this s) with
      | Some (Awaited _) => true
      | _ => false
      end
  | _ => false
  end.

(** The [close] call a context field gets from [disconnect]. *)
Definition closes (field : option AudioContext) : list effect :=
  match field with
  | Some context => [ContextClose (sampleRate context)]
  | None => []
  end.

(** [after] is [before] torn down by one run of the statements of
    [disconnect]: no promise, no open context, an empty live set, the
    cursor at 0, and a log that has gained, oldest first, the close of the
    transport session when there is one, the close of each context held and
    the stop of each live source, and nothing else. *)
Definition tornDown (session : bool) (before after : State) : Prop :=
  this after
  = {| sessionPromise := None;
       inputAudioContext := option_map close (inputAudioContext (this before));
       outputAudioContext :=
         option_map close (outputAudioContext (this before));
       nextStartTime := 0;
       audioSources := [] |} /\
  released (this after) = true /\
  log after
  = rev (map SourceStop (audioSources (this before)))
      ++ closes (outputAudioContext (this before))
      ++ closes (inputAudioContext (this before))
      ++ (if session then [SessionClose] else [])
      ++ log before /\
  created after = created before.

Section Handled.

Variable decode : string -> option (list Z).
Variable decodeAudioData :
  list Z -> AudioContext -> N -> N -> option AudioBuffer.

(** [handleAudio] does not fail on [message]: there is no output context,
    or the message has nothing to play, or what it has decodes. *)
Definition audioHandled (message : LiveServerMessage) (s : State) : Prop :=
  outputAudioContext (this s) = None \/
  exists found,
    base64Audio message = inr found /\
    (truthy found = None \/
     exists context audioBuffer,
       outputAudioContext (this s) = Some context /\
       decoded decode decodeAudioData context message = Some audioBuffer).

End Handled.

End Invariants.

Module Scenarios.

Import LiveChatSession.

(** A message whose first part is not audio and which signals an
    interruption. *)
Definition interruptingText : LiveServerMessage :=
  {| serverContent :=
       Some {| modelTurn :=
                 Some {| parts := Some [ {| inlineData := None |} ] |};
               interrupted := Some true |} |}.

(** Fragments of a conversation, as the component receives them. *)
Definition heard (fragment : string) : Transcript.Message :=
  Transcript.mkMessage
    (Some (Transcript.mkServerContent
             (Some (Transcript.mkTranscription (Some fragment))) None None)).

Definition spoken (fragment : string) : Transcript.Message :=
  Transcript.mkMessage
    (Some (Transcript.mkServerContent
             None (Some (Transcript.mkTranscription (Some fragment))) None)).

Definition turnEnd : Transcript.Message :=
  Transcript.mkMessage
    (Some (Transcript.mkServerContent None None (Some true))).

(** A [trim] for texts whose only white space is the space character. *)
Fixpoint dropLeading (s : string) : string :=
  match s with
  | String c rest =>
      if Ascii.eqb c (Ascii.ascii_of_nat 32) then dropLeading rest else s
  | EmptyString => EmptyString
  end.

Fixpoint dropTrailing (s : string) : string :=
  match s with
  | String c rest =>
      let kept := dropTrailing rest in
      if Ascii.eqb c (Ascii.ascii_of_nat 32) && String.eqb kept ""
      then EmptyString
      else String c kept
  | EmptyString => EmptyString
  end.

Definition exampleTrim (s : string) : string := dropTrailing (dropLeading s).

(** The settings of the example in the system instruction. *)
Definition suggestion : DeviceControlAI.JSON :=
  DeviceControlAI.JObject
    [("temperature"%string, DeviceControlAI.JNumber (210 # 1));
     ("extrusionSpeed"%string, DeviceControlAI.JNumber (45 # 1));
     ("shredderSpeed"%string, DeviceControlAI.JNumber (60 # 1));
     ("pullingSpeed"%string, DeviceControlAI.JNumber (50 # 1))].

(** A service that answers every request with the same text, one that
    answers with the JSON text of [null], and a parser that knows these two
    texts. *)
Definition exampleGenerate (parts : list GeminiService.RequestPart)
  : exception + option string :=
  inr (Some " pla "%string).

Definition nullGenerate (parts : list GeminiService.RequestPart)
  : exception + option string :=
  inr (Some "null"%string).

Definition exampleParse (text : string) : option DeviceControlAI.JSON :=
  if String.eqb text "pla" then Some suggestion
  else if String.eqb text "null" then Some DeviceControlAI.JNull
  else None.

(** A form with a description and a picture. *)
Definition filledForm : DeviceControlAI.Component :=
  {| DeviceControlAI.prompt := "PLA flakes";
     DeviceControlAI.image :=
       Some {| DeviceControlAI.readAsDataURL :=
                 Some "data:image/jpeg;base64,AAAA"%string |};
     DeviceControlAI.isLoading := false;
     DeviceControlAI.error := "";
     DeviceControlAI.result := DeviceControlAI.JNull |}.

End Scenarios.

(** ** The encoder *)

Module PCMFacts.

Import PCM.

Local Open Scope Z_scope.

Lemma store_middle (done : Int16Array) (old v : Z) (rest : Int16Array) :
  store (done ++ old :: rest) (List.length done) v = done ++ v :: rest.
Proof.
  induction done as [|h t IH]; simpl; [reflexivity|].
  now rewrite IH.
Qed.

Lemma firstn_snoc (A : Type) (l : list A) (i : nat) (d : A) :
  (i < List.length l)%nat ->
  firstn (S i) l = firstn i l ++ [nth i l d].
Proof.
  revert i; induction l as [|h t IH]; intros i Hi; simpl in Hi; [lia|].
  destruct i as [|j]; [reflexivity|].
  change (firstn (S (S j)) (h :: t)) with (h :: firstn (S j) t).
  rewrite (IH j) by lia. reflexivity.
Qed.

(** The loop, run over what is left of the block, fills in what [map]
    would. *)
Lemma fill_map (samples : Float32Array) (todo i : nat) :
  (i + todo = List.length samples)%nat ->
  fill samples i todo
    (map (fun x => ToInt16 (times32768 x)) (firstn i samples)
       ++ repeat 0 todo)
  = map (fun x => ToInt16 (times32768 x)) samples.
Proof.
  revert i; induction todo as [|todo IH]; intros i Hlen; simpl.
  - rewrite app_nil_r, firstn_all2 by lia. reflexivity.
  - assert (Hi : List.length
                   (map (fun x => ToInt16 (times32768 x)) (firstn i samples))
                 = i).
    { rewrite length_map, length_firstn. lia. }
    set (filled := map (fun x => ToInt16 (times32768 x)) (firstn i samples))
      in *.
    replace (store (filled ++ 0 :: repeat 0 todo) i
               (ToInt16 (times32768 (nth i samples NaN))))
      with (filled ++ ToInt16 (times32768 (nth i samples NaN))
              :: repeat 0 todo)
      by (rewrite <- Hi at 2; now rewrite store_middle).
    subst filled.
    rewrite <- (IH (S i)) by lia.
    rewrite (firstn_snoc _ samples i NaN) by lia.
    rewrite map_app, <- app_assoc. reflexivity.
Qed.

(** The typed-array loop of [createPcmBlob] is a [map]. *)
Lemma scaled_map (samples : Float32Array) :
  scaled samples = map (fun x => ToInt16 (times32768 x)) samples.
Proof.
  unfold scaled. apply (fill_map samples (List.length samples) 0%nat).
  reflexivity.
Qed.

Lemma bytesOf_length (a : Int16Array) :
  List.length (bytesOf a) = (2 * List.length a)%nat.
Proof.
  induction a as [|w t IH]; simpl; [reflexivity|]. rewrite IH. lia.
Qed.

Lemma wrap16_range (z : Z) : -32768 <= wrap16 z <= 32767.
Proof.
  unfold wrap16.
  pose proof (Z.mod_pos_bound z 65536 ltac:(lia)).
  destruct (32768 <=? z mod 65536) eqn:E;
    [apply Z.leb_le in E | apply Z.leb_gt in E]; lia.
Qed.

Lemma wrap16_small (z : Z) : -32768 <= z <= 32767 -> wrap16 z = z.
Proof.
  intros Hz. unfold wrap16.
  destruct (Z_lt_le_dec z 0) as [Hneg|Hpos].
  - replace (z mod 65536) with (z + 65536).
    + destruct (32768 <=? z + 65536) eqn:E;
        [apply Z.leb_le in E | apply Z.leb_gt in E]; lia.
    + apply (Z.mod_unique_pos z 65536 (-1)); lia.
  - rewrite Z.mod_small by lia.
    destruct (32768 <=? z) eqn:E;
      [apply Z.leb_le in E | apply Z.leb_gt in E]; lia.
Qed.

Lemma ToInt16_range (x : float) : -32768 <= ToInt16 x <= 32767.
Proof.
  destruct x; simpl; try lia. apply wrap16_range.
Qed.

(** Reading the two bytes of an element back gives the element. *)
Lemma bytes_roundtrip (w : Z) :
  -32768 <= w <= 32767 -> wrap16 (lowByte w + 256 * highByte w) = w.
Proof.
  intros Hw. unfold lowByte, highByte.
  assert (Hsplit : w mod 256 + 256 * ((w / 256) mod 256) = w mod 65536).
  { change 65536 with (256 * 256).
    rewrite Z.rem_mul_r by lia. reflexivity. }
  rewrite Hsplit.
  transitivity (wrap16 w); [|now apply wrap16_small].
  unfold wrap16. now rewrite Z.mod_mod by lia.
Qed.

Lemma int16At_bytesOf (a : Int16Array) (i : nat) :
  (i < List.length a)%nat ->
  Forall (fun w => -32768 <= w <= 32767) a ->
  int16At (bytesOf a) i = nth i a 0.
Proof.
  revert i; induction a as [|w t IH]; intros i Hi Hall; simpl in Hi; [lia|].
  inversion Hall as [|? ? Hw Ht]; subst.
  destruct i as [|j].
  - unfold int16At; simpl. now apply bytes_roundtrip.
  - specialize (IH j ltac:(lia) Ht).
    unfold int16At in *.
    replace (2 * S j)%nat with (S (S (2 * j))) by lia.
    replace (S (S (2 * j)) + 1)%nat with (S (S (2 * j + 1))) by lia.
    simpl bytesOf.
    cbn [nth]. exact IH.
Qed.

Lemma scaled_in_range (samples : Float32Array) :
  Forall (fun w => -32768 <= w <= 32767) (scaled samples).
Proof.
  rewrite scaled_map. apply Forall_forall. intros w Hin.
  apply in_map_iff in Hin. destruct Hin as [x [<- _]]. apply ToInt16_range.
Qed.

Lemma scaled_length (samples : Float32Array) :
  List.length (scaled samples) = List.length samples.
Proof. rewrite scaled_map. apply length_map. Qed.

Lemma scaled_nth (samples : Float32Array) (i : nat) :
  (i < List.length samples)%nat ->
  nth i (scaled samples) 0 = ToInt16 (times32768 (nth i samples NaN)).
Proof.
  intros Hi. rewrite scaled_map.
  rewrite (nth_indep _ 0 (ToInt16 (times32768 NaN)))
    by (rewrite length_map; exact Hi).
  apply (map_nth (fun x => ToInt16 (times32768 x))).
Qed.

Lemma quot_remainder (a d : Z) :
  0 < d ->
  exists r,
    a = d * (a ÷ d) + r /\ Z.abs r < d /\
    (0 <= a -> 0 <= r) /\ (a <= 0 -> r <= 0).
Proof.
  intros Hd. exists (Z.rem a d).
  split; [apply Z.quot_rem'|]. split.
  - pose proof (Z.rem_bound_abs a d ltac:(lia)). lia.
  - split; intros Ha; [apply Z.rem_nonneg | apply Z.rem_nonpos]; lia.
Qed.

(** Below full scale the scaled sample fits 16 bits, and truncation loses
    less than one unit of the 16-bit scale. *)
Lemma truncate_scaled (q : Q) :
  (-1 <= q)%Q -> (q < 1)%Q ->
  -32768 <= truncate (q * 32768) <= 32767 /\
  (Qabs (unscale (truncate (q * 32768)) - q) < 1 # 32768)%Q.
Proof.
  destruct q as [n d]. intros Hlo Hhi.
  unfold Qle in Hlo. unfold Qlt in Hhi. simpl in Hlo, Hhi.
  unfold truncate, unscale. simpl Qnum. simpl Qden. rewrite Pos.mul_1_r.
  destruct (quot_remainder (n * 32768) (Zpos d) ltac:(lia))
    as [r [Hr [Habs [Hpos Hneg]]]].
  set (t := n * 32768 ÷ Zpos d) in *.
  assert (Hrange : -32768 <= t <= 32767) by nia.
  split; [exact Hrange|].
  apply Qabs_Qlt_condition.
  unfold Qlt, Qminus, Qplus, Qopp, Qdiv, Qmult, Qinv, inject_Z; simpl.
  split; nia.
Qed.

Lemma ToInt16_below_full_scale (q : Q) :
  (-1 <= q)%Q -> (q < 1)%Q ->
  ToInt16 (times32768 (Finite q)) = truncate (q * 32768).
Proof.
  intros Hlo Hhi. simpl. apply wrap16_small.
  now apply truncate_scaled.
Qed.

Lemma int16At_pcmBytes (samples : Float32Array) (i : nat) :
  (i < List.length samples)%nat ->
  int16At (pcmBytes samples) i = ToInt16 (times32768 (nth i samples NaN)).
Proof.
  intros Hi. unfold pcmBytes.
  rewrite int16At_bytesOf.
  - now apply scaled_nth.
  - now rewrite scaled_length.
  - apply scaled_in_range.
Qed.

(** C3, as amended: for every block of N samples, [createPcmBlob] hands
    [encode] exactly 2N bytes under the tag "audio/pcm;rate=16000"; the
    16-bit signed little-endian value at index i is the i-th sample times
    32768 converted by ToInt16; for a finite sample q with -1 <= q < 1 that
    value is the truncation of 32768 q and dividing it by 32768 gives q back
    within less than 1/32768; and 4096 samples equal to 0.5 give 8192 bytes
    in which every 16-bit value is 16384.  The sample 1.0 is excluded: it
    wraps. *)
Theorem createPcmBlob_encoding :
  forall (encode : Uint8Array -> string) (samples : Float32Array),
    createPcmBlob encode samples
    = {| data := encode (pcmBytes samples);
         mimeType := "audio/pcm;rate=16000" |} /\
    List.length (pcmBytes samples) = (2 * List.length samples)%nat /\
    (forall i, (i < List.length samples)%nat ->
       int16At (pcmBytes samples) i
       = ToInt16 (times32768 (nth i samples NaN))) /\
    (forall i q, (i < List.length samples)%nat ->
       nth i samples NaN = Finite q ->
       (-1 <= q)%Q -> (q < 1)%Q ->
       int16At (pcmBytes samples) i = truncate (q * 32768) /\
       (Qabs (unscale (int16At (pcmBytes samples) i) - q) < 1 # 32768)%Q) /\
    (let block := repeat (Finite (1 # 2)) 4096 in
     List.length (pcmBytes block) = 8192%nat /\
     forall i, (i < 4096)%nat -> int16At (pcmBytes block) i = 16384).
Proof.
  intros encode samples.
  split; [reflexivity|].
  split; [unfold pcmBytes; now rewrite bytesOf_length, scaled_length|].
  split; [intros i Hi; now apply int16At_pcmBytes|].
  split.
  - intros i q Hi Hq Hlo Hhi.
    rewrite int16At_pcmBytes, Hq, ToInt16_below_full_scale by assumption.
    split; [reflexivity|]. now apply truncate_scaled.
  - cbv zeta. split.
    + unfold pcmBytes.
      now rewrite bytesOf_length, scaled_length, repeat_length.
    + intros i Hi.
      rewrite int16At_pcmBytes by (now rewrite repeat_length).
      rewrite (nth_indep _ NaN (Finite (1 # 2)))
        by (now rewrite repeat_length).
      rewrite nth_repeat. reflexivity.
Qed.

(** The round trip of C3 at a quarter of full scale. *)
Lemma createPcmBlob_encoding_witness :
  (Qabs (unscale (int16At (pcmBytes [Finite (1 # 4)]) 0) - (1 # 4))
   < 1 # 32768)%Q.
Proof.
  destruct (createPcmBlob_encoding (fun _ => EmptyString) [Finite (1 # 4)])
    as [_ [_ [_ [Hround _]]]].
  apply (Hround 0%nat (1 # 4)).
  - simpl; lia.
  - reflexivity.
  - unfold Qle; simpl; lia.
  - unfold Qlt; simpl; lia.
Defined.

(** C3 as stated fails at the in-range sample 1.0: 32768 does not fit 16
    bits, the stored value is -32768, and inverse scaling gives -1.0. *)
Lemma createPcmBlob_full_scale_wraps :
  (-1 <= 1)%Q /\ (1 <= 1)%Q /\
  List.length (pcmBytes [Finite 1]) = 2%nat /\
  int16At (pcmBytes [Finite 1]) 0 = -32768 /\
  ~ (Qabs (unscale (int16At (pcmBytes [Finite 1]) 0) - 1) <= 1 # 32768)%Q.
Proof.
  split; [unfold Qle; simpl; lia|].
  split; [unfold Qle; simpl; lia|].
  split; [reflexivity|].
  split; [reflexivity|].
  vm_compute. intros H. apply H. reflexivity.
Qed.

End PCMFacts.

(** ** The session *)

Module SessionFacts.

Import LiveChatSession.
Import Examples.

Local Open Scope N_scope.

(** A branch of [handleAudio] that returns before it schedules. *)
Ltac nothing_played Hrun :=
  inversion Hrun; subst; left; now repeat split.

(** *** The live set *)

Lemma delete_In (n m : nat) (set : list nat) :
  In m (delete n set) <-> In m set /\ m <> n.
Proof.
  unfold delete. rewrite filter_In.
  destruct (Nat.eqb_spec n m) as [->|Hne]; simpl; intuition congruence.
Qed.

Lemma stopAll_frame (sources : list nat) (s : State) :
  sessionPromise (this (stopAll sources s)) = sessionPromise (this s) /\
  inputAudioContext (this (stopAll sources s)) = inputAudioContext (this s) /\
  outputAudioContext (this (stopAll sources s))
  = outputAudioContext (this s) /\
  nextStartTime (this (stopAll sources s)) = nextStartTime (this s) /\
  created (stopAll sources s) = created s /\
  log (stopAll sources s) = rev (map SourceStop sources) ++ log s.
Proof.
  revert s; induction sources as [|n rest IH]; intros s; simpl.
  - repeat split; reflexivity.
  - destruct (IH (update
                    (fun o => set_audioSources (delete n (audioSources o)) o)
                    (emit (SourceStop n) s)))
      as (H1 & H2 & H3 & H4 & H5 & H6).
    rewrite H1, H2, H3, H4, H5, H6. simpl.
    repeat split; try reflexivity.
    now rewrite <- app_assoc.
Qed.

(** The loop leaves nothing of what it iterates over. *)
Lemma stopAll_empties (sources : list nat) (s : State) :
  (forall n, In n (audioSources (this s)) -> In n sources) ->
  audioSources (this (stopAll sources s)) = [].
Proof.
  revert s; induction sources as [|n rest IH]; intros s Hsub; simpl.
  - destruct (audioSources (this s)) as [|m set]; [reflexivity|].
    destruct (Hsub m (or_introl eq_refl)).
  - apply IH. simpl. intros m Hm.
    apply delete_In in Hm. destruct Hm as [Hm Hne].
    destruct (Hsub m Hm) as [Heq|Hin]; [congruence|exact Hin].
Qed.

Lemma interruptAudio_spec (s : State) :
  this (interruptAudio s)
  = {| sessionPromise := sessionPromise (this s);
       inputAudioContext := inputAudioContext (this s);
       outputAudioContext := outputAudioContext (this s);
       nextStartTime := 0;
       audioSources := [] |} /\
  log (interruptAudio s)
  = rev (map SourceStop (audioSources (this s))) ++ log s /\
  created (interruptAudio s) = created s.
Proof.
  unfold interruptAudio.
  destruct (stopAll_frame (audioSources (this s)) s)
    as (H1 & H2 & H3 & _ & H5 & H6).
  pose proof (stopAll_empties (audioSources (this s)) s (fun n H => H))
    as Hempty.
  unfold update, set_nextStartTime; simpl.
  rewrite H1, H2, H3, H5, H6, Hempty. repeat split; reflexivity.
Qed.

Lemma interruptAudio_stops (s : State) (n : nat) :
  In n (audioSources (this s)) -> In (SourceStop n) (log (interruptAudio s)).
Proof.
  intros Hin. destruct (interruptAudio_spec s) as (_ & Hlog & _).
  rewrite Hlog. apply in_or_app. left.
  rewrite <- in_rev. now apply in_map.
Qed.

Lemma add_In (n : nat) (set : list nat) : In n (add n set).
Proof.
  unfold add. destruct (existsb (Nat.eqb n) set) eqn:E.
  - apply existsb_exists in E. destruct E as [m [Hm Heq]].
    apply Nat.eqb_eq in Heq. now subst.
  - apply in_or_app. right. now left.
Qed.

Lemma add_keeps (n m : nat) (set : list nat) : In m set -> In m (add n set).
Proof.
  unfold add. destruct (existsb (Nat.eqb n) set); [auto|].
  intros H. apply in_or_app. now left.
Qed.

(** *** Scheduling *)

Section Playback.

Variable decode : string -> option (list Z).
Variable decodeAudioData :
  list Z -> AudioContext -> N -> N -> option AudioBuffer.

(** What [schedule] does to each component of the state. *)
Lemma schedule_spec (audioBuffer : AudioBuffer) (s : State) :
  this (schedule audioBuffer s)
  = {| sessionPromise := sessionPromise (this s);
       inputAudioContext := inputAudioContext (this s);
       outputAudioContext := outputAudioContext (this s);
       nextStartTime := nextStartTime (this s) + duration audioBuffer;
       audioSources := add (created s) (audioSources (this s)) |} /\
  log (schedule audioBuffer s)
  = SourceStart (created s) (nextStartTime (this s)) (duration audioBuffer)
      :: log s /\
  created (schedule audioBuffer s) = S (created s).
Proof. repeat split; reflexivity. Qed.

Lemma decoded_text (context : AudioContext) (message : LiveServerMessage)
  (found : option string) (text : string) :
  base64Audio message = inr found ->
  truthy found = Some text ->
  decoded decode decodeAudioData context message
  = match decode text with
    | Some bytes => decodeAudioData bytes context 24000 1
    | None => None
    end.
Proof. intros Hb64 Htruthy. unfold decoded. now rewrite Hb64, Htruthy. Qed.

(** A payload that decodes is scheduled. *)
Lemma handleAudio_decoded (currentTime : N) (message : LiveServerMessage)
  (s : State) (context : AudioContext) (audioBuffer : AudioBuffer) :
  outputAudioContext (this s) = Some context ->
  decoded decode decodeAudioData context message = Some audioBuffer ->
  handleAudio decode decodeAudioData currentTime message s
  = (Done,
     schedule audioBuffer
       (update
          (set_nextStartTime (N.max (nextStartTime (this s)) currentTime))
          s)).
Proof.
  intros Hctx Hbuf. unfold handleAudio, decoded in *. rewrite Hctx.
  destruct (base64Audio message) as [e|found]; [discriminate|].
  destruct (truthy found) as [text|]; [|discriminate].
  destruct (decode text) as [bytes|]; [|discriminate].
  now rewrite Hbuf.
Qed.

(** [handleAudio] either logs nothing and leaves the live set alone, or
    schedules the buffer it decoded. *)
Lemma handleAudio_effect (currentTime : N) (message : LiveServerMessage)
  (s s' : State) (result : outcome) :
  handleAudio decode decodeAudioData currentTime message s = (result, s') ->
  (log s' = log s /\ created s' = created s /\
   audioSources (this s') = audioSources (this s)) \/
  (exists context audioBuffer,
     outputAudioContext (this s) = Some context /\
     decoded decode decodeAudioData context message = Some audioBuffer /\
     result = Done /\
     s' = schedule audioBuffer
            (update
               (set_nextStartTime
                  (N.max (nextStartTime (this s)) currentTime)) s)).
Proof.
  intros Hrun. unfold handleAudio in Hrun.
  destruct (outputAudioContext (this s)) as [context|] eqn:Hctx;
    [|nothing_played Hrun].
  destruct (base64Audio message) as [e|found] eqn:Hb64;
    [nothing_played Hrun|].
  destruct (truthy found) as [text|] eqn:Htruthy; [|nothing_played Hrun].
  pose proof (decoded_text context message found text Hb64 Htruthy) as Hdec.
  destruct (decode text) as [bytes|]; [|nothing_played Hrun].
  destruct (decodeAudioData bytes context 24000 1) as [audioBuffer|] eqn:Hbuf;
    [|nothing_played Hrun].
  inversion Hrun; subst. right. exists context, audioBuffer.
  now repeat split.
Qed.

(** [handleAudio] touches neither the transport promise nor the contexts. *)
Lemma handleAudio_frame (currentTime : N) (message : LiveServerMessage)
  (s : State) :
  let s' := snd (handleAudio decode decodeAudioData currentTime message s) in
  sessionPromise (this s') = sessionPromise (this s) /\
  inputAudioContext (this s') = inputAudioContext (this s) /\
  outputAudioContext (this s') = outputAudioContext (this s).
Proof.
  unfold handleAudio.
  destruct (outputAudioContext (this s)) as [context|] eqn:Hctx;
    [|simpl; now rewrite Hctx].
  destruct (base64Audio message) as [e|found]; [simpl; now rewrite Hctx|].
  destruct (truthy found) as [text|]; [|simpl; now rewrite Hctx].
  destruct (decode text) as [bytes|]; [|simpl; now rewrite Hctx].
  destruct (decodeAudioData bytes context 24000 1);
    simpl; now rewrite Hctx.
Qed.

(** C1: whenever [handleAudio] schedules a buffer (it logs a start), that
    buffer is the one decoded from the message, its start time is the larger
    of the cursor and the clock reading, and the cursor afterwards is that
    start time plus the buffer's duration. *)
Theorem handleAudio_start_and_cursor :
  forall (currentTime : N) (message : LiveServerMessage) (s s' : State)
         (result : outcome),
    handleAudio decode decodeAudioData currentTime message s = (result, s') ->
    log s' <> log s ->
    exists context audioBuffer,
      outputAudioContext (this s) = Some context /\
      decoded decode decodeAudioData context message = Some audioBuffer /\
      result = Done /\
      log s'
      = SourceStart (created s)
          (N.max (nextStartTime (this s)) currentTime) (duration audioBuffer)
          :: log s /\
      nextStartTime (this s')
      = N.max (nextStartTime (this s)) currentTime + duration audioBuffer.
Proof.
  intros currentTime message s s' result Hrun Hlog.
  destruct (handleAudio_effect _ _ _ _ _ Hrun)
    as [[Hsame _] | (context & audioBuffer & Hctx & Hbuf & Hres & Hs')];
    [contradiction|].
  exists context, audioBuffer. subst s'.
  destruct (schedule_spec audioBuffer
              (update
                 (set_nextStartTime
                    (N.max (nextStartTime (this s)) currentTime)) s))
    as (Hthis & Hstart & _).
  rewrite Hthis, Hstart. now repeat split.
Qed.

(** *** Decode failures *)

(** C8, as amended: a payload that fails to decode is dropped.  The call
    rejects with the decode failure; no source is created, started or added
    to the live set, nothing is logged, the transport promise and both
    contexts are as before, so capture and session go on.  The cursor is not
    advanced by any duration: it becomes the larger of itself and the clock
    reading, which leaves the start time of any buffer scheduled later as it
    would have been.  The [onmessage] callback logs the caller's
    [onMessage] and nothing else. *)
Theorem handleAudio_decode_failure :
  forall (currentTime : N) (message : LiveServerMessage) (s : State)
         (context : AudioContext) (found : option string) (text : string),
    outputAudioContext (this s) = Some context ->
    base64Audio message = inr found ->
    truthy found = Some text ->
    decoded decode decodeAudioData context message = None ->
    exists s',
      handleAudio decode decodeAudioData currentTime message s
      = (Failed DecodeFailure, s') /\
      nextStartTime (this s') = N.max (nextStartTime (this s)) currentTime /\
      (forall later, currentTime <= later ->
         N.max (nextStartTime (this s')) later
         = N.max (nextStartTime (this s)) later) /\
      audioSources (this s') = audioSources (this s) /\
      sessionPromise (this s') = sessionPromise (this s) /\
      inputAudioContext (this s') = inputAudioContext (this s) /\
      outputAudioContext (this s') = outputAudioContext (this s) /\
      log s' = log s /\
      created s' = created s /\
      onmessage decode decodeAudioData currentTime message s
      = (Failed DecodeFailure, emit (CallOnMessage message) s').
Proof.
  intros currentTime message s context found text Hctx Hb64 Htruthy Hnone.
  exists (update
            (set_nextStartTime (N.max (nextStartTime (this s)) currentTime))
            s).
  rewrite (decoded_text context message found text Hb64 Htruthy) in Hnone.
  assert (Hrun : forall s0,
             outputAudioContext (this s0) = Some context ->
             handleAudio decode decodeAudioData currentTime message s0
             = (Failed DecodeFailure,
                update
                  (set_nextStartTime
                     (N.max (nextStartTime (this s0)) currentTime)) s0)).
  { intros s0 Hctx0. unfold handleAudio.
    rewrite Hctx0, Hb64, Htruthy.
    destruct (decode text) as [bytes|]; [|reflexivity].
    now rewrite Hnone. }
  split; [now apply Hrun|].
  split; [reflexivity|].
  split; [intros later Hlater; simpl; lia|].
  repeat (split; [reflexivity|]).
  unfold onmessage. now rewrite (Hrun (emit (CallOnMessage message) s)).
Qed.

(** *** Interruption *)

Lemma In_stops (sources : list nat) (e : effect) :
  In e (rev (map SourceStop sources)) -> exists m, e = SourceStop m.
Proof.
  intros Hin. rewrite <- in_rev in Hin.
  apply in_map_iff in Hin. destruct Hin as [m [<- _]]. now exists m.
Qed.

(** The interruption, for a callback that got past [handleAudio]. *)
Lemma onmessage_done_interrupted :
  forall (currentTime : N) (message : LiveServerMessage) (s s' : State),
    isInterrupted message = true ->
    onmessage decode decodeAudioData currentTime message s = (Done, s') ->
    audioSources (this s') = [] /\
    nextStartTime (this s') = 0 /\
    (forall n, In n (audioSources (this s)) -> In (SourceStop n) (log s')) /\
    (forall n when length,
       In (SourceStart n when length) (log s') ->
       ~ In (SourceStart n when length) (log s) ->
       In (SourceStop n) (log s')) /\
    (forall later next result s'',
       handleAudio decode decodeAudioData later next s' = (result, s'') ->
       log s'' <> log s' ->
       exists n length, log s'' = SourceStart n later length :: log s').
Proof.
  intros currentTime message s s' Hint Hrun.
  unfold onmessage in Hrun. rewrite Hint in Hrun.
  destruct (handleAudio decode decodeAudioData currentTime message
              (emit (CallOnMessage message) s)) as [result s2] eqn:Haudio.
  destruct result; inversion Hrun; subst; clear Hrun.
  destruct (interruptAudio_spec s2) as (Hthis & Hlog & _).
  assert (Hlive : forall n, In n (audioSources (this s)) ->
                            In n (audioSources (this s2))).
  { intros n Hn.
    destruct (handleAudio_effect _ _ _ _ _ Haudio)
      as [(_ & _ & Hsame) | (c & b & _ & _ & _ & ->)].
    - now rewrite Hsame.
    - simpl. now apply add_keeps. }
  split; [now rewrite Hthis|].
  split; [now rewrite Hthis|].
  split; [intros n Hn; apply interruptAudio_stops; now apply Hlive|].
  split.
  - intros n when length Hin Hnew.
    rewrite Hlog in Hin. apply in_app_or in Hin.
    destruct Hin as [Hstop|Hold].
    { apply In_stops in Hstop. destruct Hstop as [m Hm]. discriminate. }
    apply interruptAudio_stops.
    destruct (handleAudio_effect _ _ _ _ _ Haudio)
      as [(Hsame & _ & _) | (c & b & _ & _ & _ & ->)].
    + rewrite Hsame in Hold. simpl in Hold.
      destruct Hold as [Hbad|Hold]; [discriminate|contradiction].
    + simpl in Hold. destruct Hold as [Hnew'|[Hbad|Hold]];
        [|discriminate|contradiction].
      inversion Hnew'; subst. simpl. apply add_In.
  - intros later next result s'' Hnext Hgrow.
    destruct (handleAudio_effect _ _ _ _ _ Hnext)
      as [(Hsame & _ & _) | (c & b & _ & _ & _ & ->)];
      [contradiction|].
    exists (created (interruptAudio s2)), (duration b).
    destruct (schedule_spec b
                (update
                   (set_nextStartTime
                      (N.max (nextStartTime (this (interruptAudio s2)))
                         later))
                   (interruptAudio s2)))
      as (_ & Hstart & _).
    rewrite Hstart.
    cbn [this update set_nextStartTime nextStartTime log created].
    rewrite Hthis. cbn [nextStartTime]. now rewrite N.max_0_l.
Qed.

(** A message [handleAudio] does not fail on is handled. *)
Lemma audioHandled_done (currentTime : N) (message : LiveServerMessage)
  (s : State) :
  Invariants.audioHandled decode decodeAudioData message s ->
  fst (handleAudio decode decodeAudioData currentTime message s) = Done.
Proof.
  intros [Hnone|(found & Hb64 & Hplay)]; unfold handleAudio.
  - now rewrite Hnone.
  - destruct (outputAudioContext (this s)) as [context|] eqn:Hctx;
      [|reflexivity].
    rewrite Hb64.
    destruct Hplay as [Hskip|(c & b & Hc & Hbuf)]; [now rewrite Hskip|].
    inversion Hc; subst c. unfold decoded in Hbuf. rewrite Hb64 in Hbuf.
    destruct (truthy found) as [text|]; [|reflexivity].
    destruct (decode text) as [bytes|]; [|discriminate].
    now rewrite Hbuf.
Qed.

(** C2, as amended: on a message that signals an interruption and on
    which [handleAudio] does not fail (no output context, nothing to play,
    or audio that decodes), the [onmessage] callback runs to its end and
    leaves the live set empty and the cursor at 0; every source that was
    live before the message or was started by it has been stopped, and the
    next buffer scheduled starts at the clock reading of its own
    arrival. *)
Theorem onmessage_interrupted :
  forall (currentTime : N) (message : LiveServerMessage) (s : State),
    isInterrupted message = true ->
    Invariants.audioHandled decode decodeAudioData message s ->
    exists s',
      onmessage decode decodeAudioData currentTime message s = (Done, s') /\
      audioSources (this s') = [] /\
      nextStartTime (this s') = 0 /\
      (forall n, In n (audioSources (this s)) ->
         In (SourceStop n) (log s')) /\
      (forall n when length,
         In (SourceStart n when length) (log s') ->
         ~ In (SourceStart n when length) (log s) ->
         In (SourceStop n) (log s')) /\
      (forall later next result s'',
         handleAudio decode decodeAudioData later next s' = (result, s'') ->
         log s'' <> log s' ->
         exists n length, log s'' = SourceStart n later length :: log s').
Proof.
  intros currentTime message s Hint Hhandled.
  assert (Hdone :
            fst (handleAudio decode decodeAudioData currentTime message
                   (emit (CallOnMessage message) s)) = Done)
    by (apply audioHandled_done; exact Hhandled).
  assert (Hrun : exists s',
             onmessage decode decodeAudioData currentTime message s
             = (Done, s')).
  { unfold onmessage. rewrite Hint.
    destruct (handleAudio decode decodeAudioData currentTime message
                (emit (CallOnMessage message) s)) as [result s2].
    simpl in Hdone. subst result. eauto. }
  destruct Hrun as (s' & Hrun). exists s'.
  split; [exact Hrun|].
  exact (onmessage_done_interrupted currentTime message s s' Hint Hrun).
Qed.

(** *** Sequences of buffers *)

(** Messages that all decode, handled one after the other from [s]: the
    start times logged, oldest first, follow the cursor. *)
Lemma handleAll_chain (arrivals : list (N * LiveServerMessage))
  (durations : list N) (context : AudioContext) :
  Forall2
    (fun arrival length =>
       option_map duration
         (decoded decode decodeAudioData context (snd arrival))
       = Some length)
    arrivals durations ->
  forall s : State,
    outputAudioContext (this s) = Some context ->
    exists starts,
      startTimes (log (handleAll decode decodeAudioData arrivals s))
      = startTimes (log s) ++ starts /\
      List.length starts = List.length arrivals /\
      ((0 < List.length arrivals)%nat ->
       nth 0 starts 0
       = N.max (nextStartTime (this s)) (nth 0 (map fst arrivals) 0)) /\
      (forall i, (S i < List.length arrivals)%nat ->
         nth (S i) starts 0
         = N.max (nth i starts 0 + nth i durations 0)
             (nth (S i) (map fst arrivals) 0)).
Proof.
  induction 1 as [|[currentTime message] length rest lengths Hbuf _ IH];
    intros s Hctx.
  - exists []. simpl. rewrite app_nil_r.
    repeat split; try reflexivity; intros; simpl in *; lia.
  - simpl in Hbuf.
    destruct (decoded decode decodeAudioData context message)
      as [audioBuffer|] eqn:Hdec; [|discriminate].
    simpl in Hbuf. inversion Hbuf as [Hlength]; clear Hbuf.
    simpl handleAll.
    rewrite (handleAudio_decoded currentTime message s context audioBuffer)
      by assumption.
    cbn [snd].
    set (s0 := update
                 (set_nextStartTime
                    (N.max (nextStartTime (this s)) currentTime)) s).
    destruct (schedule_spec audioBuffer s0) as (Hthis & Hlog & _).
    destruct (IH (schedule audioBuffer s0)) as (starts & Hall & Hlen & H0 & HS).
    { rewrite Hthis. exact Hctx. }
    exists (N.max (nextStartTime (this s)) currentTime :: starts).
    split.
    { rewrite Hall, Hlog. simpl. now rewrite <- app_assoc. }
    split; [simpl; now rewrite Hlen|].
    split; [intros _; reflexivity|].
    intros [|i] Hi; simpl in Hi.
    + cbn [nth map fst]. rewrite H0 by lia.
      rewrite Hthis. simpl. now rewrite Hlength.
    + cbn [nth map fst]. apply HS. lia.
Qed.

(** C4, as amended: for buffers scheduled one after the other with no
    interruption between them, the first starts at the larger of the cursor
    and its clock reading (its clock reading when the cursor is 0, as on a
    fresh session), each later one starts at the larger of the previous
    start plus the previous duration and its own clock reading (hence at the
    previous start plus the previous duration when it arrives no later than
    that), and the start times never decrease. *)
Theorem handleAll_start_times :
  forall (arrivals : list (N * LiveServerMessage)) (durations : list N)
         (s : State) (context : AudioContext),
    outputAudioContext (this s) = Some context ->
    Forall2
      (fun arrival length =>
         option_map duration
           (decoded decode decodeAudioData context (snd arrival))
         = Some length)
      arrivals durations ->
    exists starts,
      startTimes (log (handleAll decode decodeAudioData arrivals s))
      = startTimes (log s) ++ starts /\
      List.length starts = List.length arrivals /\
      ((0 < List.length arrivals)%nat ->
       nth 0 starts 0
       = N.max (nextStartTime (this s)) (nth 0 (map fst arrivals) 0) /\
       (nextStartTime (this s) = 0 ->
        nth 0 starts 0 = nth 0 (map fst arrivals) 0)) /\
      (forall i, (S i < List.length arrivals)%nat ->
         nth (S i) starts 0
         = N.max (nth i starts 0 + nth i durations 0)
             (nth (S i) (map fst arrivals) 0) /\
         (nth (S i) (map fst arrivals) 0
          <= nth i starts 0 + nth i durations 0 ->
          nth (S i) starts 0 = nth i starts 0 + nth i durations 0) /\
         nth i starts 0 <= nth (S i) starts 0).
Proof.
  intros arrivals durations s context Hctx Hall.
  destruct (handleAll_chain arrivals durations context Hall s Hctx)
    as (starts & Hlog & Hlen & H0 & HS).
  exists starts.
  split; [exact Hlog|]. split; [exact Hlen|]. split.
  - intros Hpos. split; [now apply H0|].
    intros Hzero. rewrite H0, Hzero by assumption. apply N.max_0_l.
  - intros i Hi. specialize (HS i Hi). rewrite HS.
    split; [reflexivity|]. split; [intros Hle|]; lia.
Qed.

(** *** What the session can reach *)

Lemma onmessage_frame (currentTime : N) (message : LiveServerMessage)
  (s : State) :
  sessionPromise
    (this (snd (onmessage decode decodeAudioData currentTime message s)))
  = sessionPromise (this s).
Proof.
  unfold onmessage.
  pose proof (handleAudio_frame currentTime message
                (emit (CallOnMessage message) s)) as Hframe.
  cbv zeta in Hframe. destruct Hframe as (Hp & _ & _).
  destruct (handleAudio decode decodeAudioData currentTime message
              (emit (CallOnMessage message) s)) as [result s2].
  simpl in Hp.
  destruct result; try exact Hp.
  destruct (isInterrupted message); [|exact Hp].
  cbn [snd]. destruct (interruptAudio_spec s2) as (Hthis & _ & _).
  rewrite Hthis. exact Hp.
Qed.

(** Without a client no step ever stores a promise. *)
Lemma no_client_no_promise (events : list event) (s : State) :
  sessionPromise (this s) = None ->
  sessionPromise (this (run decode decodeAudioData None events s)) = None.
Proof.
  revert s; induction events as [|e rest IH]; intros s Hnone;
    [exact Hnone|].
  simpl. apply IH.
  destruct e; simpl; try exact Hnone.
  - unfold settle. now rewrite Hnone.
  - destruct granted; exact Hnone.
  - now rewrite onmessage_frame.
  - unfold disconnect. rewrite Hnone. simpl. unfold teardown.
    destruct (closeContext (inputAudioContext (this s)) s) as [input s2].
    destruct (closeContext _ _) as [output s4].
    match goal with
    | |- sessionPromise (this (interruptAudio ?x)) = _ =>
        destruct (interruptAudio_spec x) as (Hthis & _ & _); now rewrite Hthis
    end.
Qed.

(** C9: on any state the session can reach, [connect] with the promise
    already stored returns at once: the state, log included, is the one it
    was called on, and nothing is thrown. *)
Theorem connect_in_flight :
  forall (ai : option GoogleGenAI) (s : State),
    reachable decode decodeAudioData ai s ->
    sessionPromise (this s) <> None ->
    connect ai s = (Done, s).
Proof.
  intros ai s [events ->] Hpromise.
  destruct ai as [client|].
  - unfold connect.
    destruct (sessionPromise
                (this (run decode decodeAudioData (Some client) events init)));
      [reflexivity|contradiction].
  - contradiction Hpromise. now apply no_client_no_promise.
Qed.

End Playback.

(** *** [connect] *)

(** C10: with no API key at module load there is no client, and [connect]
    throws "API key not configured." at once; the state it was called on,
    log included, is untouched: no context, no promise, no call made. *)
Theorem connect_without_key :
  forall (API_KEY : option string) (s : State),
    ai API_KEY = None ->
    connect (ai API_KEY) s
    = (Failed (Error "API key not configured."), s).
Proof.
  intros API_KEY s Hnone. rewrite Hnone. reflexivity.
Qed.

(** C10 on a fresh session with no key in the environment. *)
Lemma connect_without_key_witness :
  connect (ai None) init = (Failed (Error "API key not configured."), init).
Proof.
  apply (connect_without_key None init). reflexivity.
Defined.

(** *** [disconnect] *)

(** What the statements after the [await] of [disconnect] leave. *)
Lemma teardown_spec (session : bool) (s : State) :
  this (teardown session s)
  = {| sessionPromise := None;
       inputAudioContext := option_map close (inputAudioContext (this s));
       outputAudioContext := option_map close (outputAudioContext (this s));
       nextStartTime := 0;
       audioSources := [] |} /\
  (session = true -> In SessionClose (log (teardown session s))) /\
  (forall c, inputAudioContext (this s) = Some c ->
     In (ContextClose (sampleRate c)) (log (teardown session s))) /\
  (forall c, outputAudioContext (this s) = Some c ->
     In (ContextClose (sampleRate c)) (log (teardown session s))) /\
  (forall n, In n (audioSources (this s)) ->
     In (SourceStop n) (log (teardown session s))).
Proof.
  destruct s as [[promise input output cursor sources] effects count].
  unfold teardown.
  destruct session, input as [input|], output as [output|];
    cbn -[interruptAudio];
    match goal with
    | |- context [interruptAudio ?x] =>
        destruct (interruptAudio_spec x) as (Hthis & Hlog & _);
        pose proof (interruptAudio_stops x) as Hstop
    end;
    rewrite Hthis, Hlog; simpl in *;
    (split; [reflexivity|]);
    (split; [intros Hb; try discriminate; apply in_or_app; right;
             simpl; tauto|]);
    (split; [intros c Hc; try discriminate; inversion Hc; subst;
             apply in_or_app; right; simpl; tauto|]);
    (split; [intros c Hc; try discriminate; inversion Hc; subst;
             apply in_or_app; right; simpl; tauto|]);
    intros n Hn; apply in_or_app; left; rewrite <- in_rev; now apply in_map.
Qed.

(** One run of the statements of [disconnect] tears the session down. *)
Lemma teardown_tornDown (session : bool) (s : State) :
  Invariants.tornDown session s (teardown session s).
Proof.
  destruct s as [[promise input output cursor sources] effects count].
  unfold Invariants.tornDown, teardown.
  destruct session, input as [input|], output as [output|];
    cbn -[interruptAudio];
    match goal with
    | |- context [interruptAudio ?x] =>
        destruct (interruptAudio_spec x) as (Hthis & Hlog & Hcreated)
    end;
    rewrite Hthis, Hlog, Hcreated; repeat split.
Qed.

(** C5, as amended: called while the session promise is absent or
    fulfilled, [disconnect] completes without throwing and tears the
    session down: no promise, an empty live set, the cursor at 0, no open
    context, and a log that has gained exactly the close of the transport
    session if there was one, the close of each context held and the stop
    of each live source.  Called while the promise is pending it waits,
    touching nothing, and does the same when the promise is fulfilled.  A
    second call right after the first, completed or still waiting, is safe
    and leaves the same object. *)
Theorem disconnect_tears_down :
  forall s : State,
    (sessionPromise (this s) = None ->
     exists s' s'',
       disconnect s = (Done, s') /\
       Invariants.tornDown false s s' /\
       disconnect s' = (Done, s'') /\
       this s'' = this s') /\
    (sessionPromise (this s) = Some Fulfilled ->
     exists s' s'',
       disconnect s = (Done, s') /\
       Invariants.tornDown true s s' /\
       disconnect s' = (Done, s'') /\
       this s'' = this s') /\
    (sessionPromise (this s) = Some Pending ->
     exists parked again,
       disconnect s = (Suspended, parked) /\
       this parked = set_sessionPromise (Some (Awaited 1)) (this s) /\
       log parked = log s /\
       created parked = created s /\
       Invariants.tornDown true s (settle Fulfilled parked) /\
       disconnect parked = (Suspended, again) /\
       log again = log s /\
       this (settle Fulfilled again) = this (settle Fulfilled parked)).
Proof.
  intros s.
  assert (Hagain : forall session,
             disconnect (teardown session s)
             = (Done, teardown false (teardown session s)) /\
             this (teardown false (teardown session s))
             = this (teardown session s)).
  { intros session.
    destruct (teardown_spec session s) as (Hthis & _).
    destruct (teardown_spec false (teardown session s)) as (Hthis2 & _).
    split.
    - unfold disconnect at 1. now rewrite Hthis.
    - rewrite Hthis2, Hthis. simpl.
      destruct (inputAudioContext (this s)), (outputAudioContext (this s));
        reflexivity. }
  split; [|split].
  - intros Hnone. destruct (Hagain false) as (H1 & H2).
    exists (teardown false s), (teardown false (teardown false s)).
    split; [unfold disconnect; now rewrite Hnone|].
    split; [apply teardown_tornDown|]. now split.
  - intros Hfulfilled. destruct (Hagain true) as (H1 & H2).
    exists (teardown true s), (teardown false (teardown true s)).
    split; [unfold disconnect; now rewrite Hfulfilled|].
    split; [apply teardown_tornDown|]. now split.
  - intros Hpending.
    exists (update (set_sessionPromise (Some (Awaited 1))) s),
           (update (set_sessionPromise (Some (Awaited 2))) s).
    split; [unfold disconnect; now rewrite Hpending|].
    split; [reflexivity|]. split; [reflexivity|]. split; [reflexivity|].
    split.
    { exact (teardown_tornDown true
               (update (set_sessionPromise (Some Fulfilled)) s)). }
    split; [reflexivity|]. split; [reflexivity|].
    unfold settle. cbn [this update set_sessionPromise sessionPromise].
    cbn [Nat.iter nat_rect].
    set (s0 := update (set_sessionPromise (Some Fulfilled))
                 (update (set_sessionPromise (Some (Awaited 2))) s)).
    set (s1 := update (set_sessionPromise (Some Fulfilled))
                 (update (set_sessionPromise (Some (Awaited 1))) s)).
    destruct (teardown_spec true (teardown true s0)) as (Hthis2 & _).
    destruct (teardown_spec true s0) as (Hthis0 & _).
    destruct (teardown_spec true s1) as (Hthis1 & _).
    rewrite Hthis2, Hthis0, Hthis1. subst s0 s1. simpl.
    destruct (inputAudioContext (this s)), (outputAudioContext (this s));
      reflexivity.
Qed.

(** *** Transport errors *)

(** C6, as amended: a transport error is passed to the caller's error
    callback, once, and that is all: the session's fields, the live set and
    every resource it holds are as before, whether released or not; the
    component goes to its error state and keeps its reference to the
    session. *)
Theorem onerror_reports_only :
  (forall s : State,
     exists s',
       onerror s = (Done, s') /\
       this s' = this s /\
       log s' = CallOnError :: log s /\
       created s' = created s /\
       released (this s') = released (this s)) /\
  (forall (p : SupportChatbot.Page) (o : LiveChatSession),
     SupportChatbot.liveChatSessionRef p = Some o ->
     SupportChatbot.connectionState (SupportChatbot.transportErrored p)
     = SupportChatbot.error /\
     SupportChatbot.liveChatSessionRef (SupportChatbot.transportErrored p)
     = Some o /\
     SupportChatbot.effects (SupportChatbot.transportErrored p)
     = CallOnError :: SupportChatbot.effects p).
Proof.
  split.
  - intros s. exists (emit CallOnError s). now repeat split.
  - intros p o Href.
    unfold SupportChatbot.transportErrored, SupportChatbot.deliver.
    rewrite Href. now repeat split.
Qed.

(** *** Acquisitions *)

(** C7, as amended: a [connect] that goes through creates exactly one
    output context and requests no microphone; the transport's open
    callback creates exactly one input context and requests the microphone
    exactly once, on top of the request the component's own [connect] makes
    before it calls the session, so a connect from the component that
    reaches the connected state has requested the microphone twice; both
    contexts are closed when [disconnect] completes, and the error and close
    callbacks of the transport leave the session as it is. *)
Theorem acquisitions_per_connect :
  forall client : GoogleGenAI,
    (forall s : State,
       sessionPromise (this s) = None ->
       exists s',
         connect (Some client) s = (Done, s') /\
         outputAcquisitions (log s') = S (outputAcquisitions (log s)) /\
         inputAcquisitions (log s') = inputAcquisitions (log s) /\
         microphoneAcquisitions (log s') = microphoneAcquisitions (log s) /\
         outputAudioContext (this s')
         = Some {| sampleRate := 24000; closed := false |} /\
         sessionPromise (this s') = Some Pending) /\
    (forall s : State,
       exists s',
         onopen true s = (Done, s') /\
         inputAcquisitions (log s') = S (inputAcquisitions (log s)) /\
         microphoneAcquisitions (log s')
         = S (microphoneAcquisitions (log s)) /\
         outputAcquisitions (log s') = outputAcquisitions (log s) /\
         inputAudioContext (this s')
         = Some {| sampleRate := 16000; closed := false |}) /\
    (forall p : SupportChatbot.Page,
       match SupportChatbot.liveChatSessionRef p with
       | Some o => sessionPromise o = None
       | None => True
       end ->
       let p' :=
         SupportChatbot.transportOpened true
           (SupportChatbot.connect (Some client) true p) in
       SupportChatbot.connectionState p' = SupportChatbot.connected /\
       microphoneAcquisitions (SupportChatbot.effects p')
       = S (S (microphoneAcquisitions (SupportChatbot.effects p))) /\
       outputAcquisitions (SupportChatbot.effects p')
       = S (outputAcquisitions (SupportChatbot.effects p)) /\
       inputAcquisitions (SupportChatbot.effects p')
       = S (inputAcquisitions (SupportChatbot.effects p))) /\
    (forall s : State,
       sessionPromise (this s) = None \/
       sessionPromise (this s) = Some Fulfilled ->
       fst (disconnect s) = Done /\
       released (this (snd (disconnect s))) = true) /\
    (forall s : State,
       this (snd (onerror s)) = this s /\ this (snd (onclose s)) = this s).
Proof.
  intros client.
  split.
  { intros s Hnone. unfold connect. rewrite Hnone.
    eexists; split; [reflexivity|]. now repeat split. }
  split.
  { intros s. unfold onopen. eexists; split; [reflexivity|].
    now repeat split. }
  split.
  { intros p Href.
    unfold SupportChatbot.transportOpened, SupportChatbot.deliver,
      SupportChatbot.connect, connect.
    destruct (SupportChatbot.liveChatSessionRef p) as [o|]; simpl.
    - rewrite Href. simpl. now repeat split.
    - now repeat split. }
  split.
  { intros s Hsettled. unfold disconnect.
    destruct Hsettled as [-> | ->]; (split; [reflexivity|]); cbn [snd];
      match goal with
      | |- context [teardown ?b s] =>
          destruct (teardown_spec b s) as (Hthis & _); rewrite Hthis
      end;
      unfold released; simpl;
      destruct (inputAudioContext (this s)), (outputAudioContext (this s));
      reflexivity. }
  intros s. split; reflexivity.
Qed.

(** *** Runs on concrete inputs *)

(** C1 on a four-byte payload received at time 7 by a session whose cursor
    is 0. *)
Lemma handleAudio_start_and_cursor_witness :
  exists context audioBuffer,
    outputAudioContext (this connectingState) = Some context /\
    decoded exampleDecode exampleDecodeAudioData context
      (audioMessage "abcd" None)
    = Some audioBuffer /\
    Done = Done /\
    log (snd (handleAudio exampleDecode exampleDecodeAudioData 7
                (audioMessage "abcd" None) connectingState))
    = SourceStart (created connectingState)
        (N.max (nextStartTime (this connectingState)) 7)
        (duration audioBuffer)
        :: log connectingState /\
    nextStartTime
      (this (snd (handleAudio exampleDecode exampleDecodeAudioData 7
                    (audioMessage "abcd" None) connectingState)))
    = N.max (nextStartTime (this connectingState)) 7 + duration audioBuffer.
Proof.
  apply (handleAudio_start_and_cursor exampleDecode exampleDecodeAudioData 7
           (audioMessage "abcd" None) connectingState).
  - reflexivity.
  - vm_compute. discriminate.
Defined.

(** C2, as amended, on a session with one source playing. *)
Lemma onmessage_interrupted_witness :
  exists s',
    onmessage exampleDecode exampleDecodeAudioData 9 interruption
      connectedState
    = (Done, s') /\
    audioSources (this connectedState) = [0%nat] /\
    audioSources (this s') = [] /\
    nextStartTime (this s') = 0 /\
    In (SourceStop 0) (log s').
Proof.
  destruct (onmessage_interrupted exampleDecode exampleDecodeAudioData 9
              interruption connectedState)
    as (s' & Hrun & Hempty & Hcursor & Hstopped & _).
  - reflexivity.
  - right. exists None. split; [reflexivity|]. left. reflexivity.
  - exists s'. split; [exact Hrun|]. split; [reflexivity|].
    split; [exact Hempty|]. split; [exact Hcursor|].
    apply Hstopped. simpl. now left.
Defined.

(** C2 as stated fails when [handleAudio] fails on the interrupting
    message, on a first part that is not audio as on a payload that does
    not decode: the callback ends before the interruption, the source that
    was playing stays live and is not stopped, and the cursor is not 0. *)
Lemma interruption_lost_with_failed_audio :
  let text :=
    onmessage exampleDecode exampleDecodeAudioData 9
      Scenarios.interruptingText connectedState in
  let broken :=
    onmessage exampleDecode exampleDecodeAudioData 9
      (audioMessage "a" (Some true)) connectedState in
  isInterrupted Scenarios.interruptingText = true /\
  fst text = Failed TypeError /\
  audioSources (this (snd text)) = [0%nat] /\
  nextStartTime (this (snd text)) = 9 /\
  ~ In (SourceStop 0) (log (snd text)) /\
  isInterrupted (audioMessage "a" (Some true)) = true /\
  fst broken = Failed DecodeFailure /\
  audioSources (this (snd broken)) = [0%nat] /\
  nextStartTime (this (snd broken)) = 9 /\
  ~ In (SourceStop 0) (log (snd broken)).
Proof.
  repeat (split; [reflexivity|]).
  split.
  { vm_compute. intros H. repeat (destruct H as [H|H]; [discriminate|]).
    exact H. }
  repeat (split; [reflexivity|]).
  vm_compute. intros H. repeat (destruct H as [H|H]; [discriminate|]).
  exact H.
Qed.

(** C4, as amended, on three payloads of 1, 2 and 1 frames received at
    times 0, 1 and 9. *)
Lemma handleAll_start_times_witness :
  exists starts,
    startTimes
      (log (handleAll exampleDecode exampleDecodeAudioData
              [(0, audioMessage "ab" None); (1, audioMessage "abcd" None);
               (9, audioMessage "ab" None)]
              connectingState))
    = startTimes (log connectingState) ++ starts /\
    List.length starts = 3%nat.
Proof.
  destruct (handleAll_start_times exampleDecode exampleDecodeAudioData
              [(0, audioMessage "ab" None); (1, audioMessage "abcd" None);
               (9, audioMessage "ab" None)]
              [1; 2; 1] connectingState
              {| sampleRate := 24000; closed := false |})
    as (starts & Hlog & Hlen & _).
  - reflexivity.
  - repeat constructor.
  - exists starts. split; [exact Hlog|exact Hlen].
Defined.

(** C4 as stated fails when a payload arrives after the previous buffer
    has ended: a one-frame buffer starts at 0, the next payload arrives at
    5 and starts at 5, not at 0 + 1. *)
Lemma late_payload_starts_late :
  let message := audioMessage "ab" None in
  let s' :=
    handleAll exampleDecode exampleDecodeAudioData
      [(0, message); (5, message)] connectingState in
  option_map duration
    (decoded exampleDecode exampleDecodeAudioData
       {| sampleRate := 24000; closed := false |} message)
  = Some 1 /\
  startTimes (log s') = [0; 5] /\
  nth 1 (startTimes (log s')) 0 <> nth 0 (startTimes (log s')) 0 + 1.
Proof.
  split; [reflexivity|]. split; [reflexivity|].
  vm_compute. discriminate.
Qed.

(** C8, as amended, on a one-byte payload, which does not decode. *)
Lemma handleAudio_decode_failure_witness :
  exists s',
    handleAudio exampleDecode exampleDecodeAudioData 5
      (audioMessage "a" None) connectedState
    = (Failed DecodeFailure, s') /\
    audioSources (this s') = audioSources (this connectedState) /\
    log s' = log connectedState.
Proof.
  destruct (handleAudio_decode_failure exampleDecode exampleDecodeAudioData 5
              (audioMessage "a" None) connectedState
              {| sampleRate := 24000; closed := false |} (Some "a"%string)
              "a"%string)
    as (s' & Hrun & _ & _ & Hlive & _ & _ & _ & Hlog & _).
  - reflexivity.
  - reflexivity.
  - reflexivity.
  - reflexivity.
  - exists s'. split; [exact Hrun|]. split; [exact Hlive|exact Hlog].
Defined.

(** C8 as stated fails when the clock is ahead of the cursor: the payload
    that does not decode leaves the cursor at 5 instead of 0. *)
Lemma decode_failure_moves_cursor :
  let message := audioMessage "a" None in
  let r :=
    handleAudio exampleDecode exampleDecodeAudioData 5 message
      connectingState in
  decoded exampleDecode exampleDecodeAudioData
    {| sampleRate := 24000; closed := false |} message
  = None /\
  fst r = Failed DecodeFailure /\
  nextStartTime (this connectingState) = 0 /\
  nextStartTime (this (snd r)) = 5 /\
  nextStartTime (this (snd r)) <> nextStartTime (this connectingState).
Proof.
  repeat (split; [reflexivity|]). vm_compute. discriminate.
Qed.

(** C9 on the session right after a first [connect]. *)
Lemma connect_in_flight_witness :
  connect (Some (Client "key")) connectingState = (Done, connectingState).
Proof.
  apply (connect_in_flight exampleDecode exampleDecodeAudioData).
  - exists [Connect]. reflexivity.
  - vm_compute. discriminate.
Defined.

(** C5, as amended, on a connected session with one source playing and
    on a session that is still connecting. *)
Lemma disconnect_tears_down_witness :
  (exists s',
     disconnect connectedState = (Done, s') /\
     Invariants.tornDown true connectedState s') /\
  (exists parked,
     disconnect connectingState = (Suspended, parked) /\
     Invariants.tornDown true connectingState (settle Fulfilled parked)).
Proof.
  split.
  - destruct (disconnect_tears_down connectedState) as (_ & Hfulfilled & _).
    destruct Hfulfilled as (s' & s'' & Hrun & Htorn & _); [reflexivity|].
    exists s'. split; [exact Hrun|exact Htorn].
  - destruct (disconnect_tears_down connectingState) as (_ & _ & Hpending).
    destruct Hpending as (parked & again & Hrun & _ & _ & _ & Htorn & _);
      [reflexivity|].
    exists parked. split; [exact Hrun|exact Htorn].
Defined.

(** C5 as stated fails when the promise of [connect] is rejected: called
    after the rejection [disconnect] throws, and a call that was waiting
    for the promise is dropped by the rejection; either way the promise
    stays stored and the output context open. *)
Lemma disconnect_rejected_promise :
  let failed := settle (Rejected (Error "refused")) connectingState in
  let waiting := snd (disconnect connectingState) in
  disconnect failed = (Failed (Error "refused"), failed) /\
  released (this failed) = false /\
  outputAudioContext (this failed)
  = Some {| sampleRate := 24000; closed := false |} /\
  fst (disconnect connectingState) = Suspended /\
  released (this (settle (Rejected (Error "refused")) waiting)) = false /\
  outputAudioContext (this (settle (Rejected (Error "refused")) waiting))
  = Some {| sampleRate := 24000; closed := false |}.
Proof. repeat split; reflexivity. Qed.

(** C6, as amended, on the component once connected. *)
Lemma onerror_reports_only_witness :
  SupportChatbot.connectionState (SupportChatbot.transportErrored connectedPage)
  = SupportChatbot.error /\
  SupportChatbot.liveChatSessionRef
    (SupportChatbot.transportErrored connectedPage)
  = SupportChatbot.liveChatSessionRef connectedPage.
Proof.
  destruct onerror_reports_only as [_ Hpage].
  destruct (Hpage connectedPage
              {| sessionPromise := Some Pending;
                 inputAudioContext :=
                   Some {| sampleRate := 16000; closed := false |};
                 outputAudioContext :=
                   Some {| sampleRate := 24000; closed := false |};
                 nextStartTime := 0;
                 audioSources := [] |})
    as (Hstate & Href & _).
  - reflexivity.
  - split; [exact Hstate|exact Href].
Defined.

(** C6 as stated fails on a connected session: after the transport error
    the promise is still stored, both contexts are open and the source
    that was playing is still live. *)
Lemma transport_error_releases_nothing :
  let s' := snd (onerror connectedState) in
  fst (onerror connectedState) = Done /\
  log s' = CallOnError :: log connectedState /\
  released (this s') = false /\
  sessionPromise (this s') = Some Fulfilled /\
  inputAudioContext (this s')
  = Some {| sampleRate := 16000; closed := false |} /\
  outputAudioContext (this s')
  = Some {| sampleRate := 24000; closed := false |} /\
  audioSources (this s') = [0%nat].
Proof. repeat split; reflexivity. Qed.

(** C7, as amended, on a fresh session. *)
Lemma acquisitions_per_connect_witness :
  exists s',
    connect (Some (Client "key")) init = (Done, s') /\
    outputAcquisitions (log s') = 1%nat /\
    microphoneAcquisitions (log s') = 0%nat.
Proof.
  destruct (acquisitions_per_connect (Client "key")) as [Hconnect _].
  destruct (Hconnect init) as (s' & Hrun & Hout & _ & Hmic & _).
  - reflexivity.
  - exists s'. split; [exact Hrun|]. split; [exact Hout|exact Hmic].
Defined.

(** C7 as stated fails on a connect made through the component: by the
    time it is connected the microphone has been requested twice, and after
    a transport error, or a close, both contexts are still open. *)
Lemma component_connect_asks_twice_and_error_keeps_devices :
  SupportChatbot.connectionState connectedPage = SupportChatbot.connected /\
  microphoneAcquisitions (SupportChatbot.effects connectedPage) = 2%nat /\
  outputAcquisitions (SupportChatbot.effects connectedPage) = 1%nat /\
  SupportChatbot.connectionState (SupportChatbot.transportErrored connectedPage)
  = SupportChatbot.error /\
  option_map released
    (SupportChatbot.liveChatSessionRef
       (SupportChatbot.transportErrored connectedPage))
  = Some false /\
  option_map (fun o => contextReleased (outputAudioContext o))
    (SupportChatbot.liveChatSessionRef
       (SupportChatbot.transportErrored connectedPage))
  = Some false /\
  SupportChatbot.connectionState (SupportChatbot.transportClosed connectedPage)
  = SupportChatbot.disconnected /\
  option_map (fun o => contextReleased (inputAudioContext o))
    (SupportChatbot.liveChatSessionRef
       (SupportChatbot.transportClosed connectedPage))
  = Some false.
Proof. repeat split; reflexivity. Qed.

End SessionFacts.

(** ** Invariants of the session *)

Module SessionInvariants.

Import LiveChatSession.
Import Invariants.
Import Examples.
Import Scenarios.

Local Open Scope N_scope.

Lemma delete_NoDup (n : nat) (set : list nat) :
  NoDup set -> NoDup (delete n set).
Proof. intros H. unfold delete. now apply NoDup_filter. Qed.

Lemma add_fresh (n : nat) (set : list nat) :
  ~ In n set -> add n set = set ++ [n].
Proof.
  intros Hfresh. unfold add.
  destruct (existsb (Nat.eqb n) set) eqn:E; [|reflexivity].
  apply existsb_exists in E. destruct E as [m [Hm Heq]].
  apply Nat.eqb_eq in Heq. subst. contradiction.
Qed.

(** The invariant looks at the live set, the log and the node count
    only. *)
Lemma liveSetConsistent_ext (s s' : State) :
  audioSources (this s') = audioSources (this s) ->
  log s' = log s ->
  created s' = created s ->
  liveSetConsistent s -> liveSetConsistent s'.
Proof.
  unfold liveSetConsistent. intros -> -> ->. exact (fun H => H).
Qed.

Lemma liveSetConsistent_emit (e : effect) (s : State) :
  (forall n, e <> SourceStop n) ->
  liveSetConsistent s -> liveSetConsistent (emit e s).
Proof.
  intros Hstop (Hnodup & Hlive & Hstopped). unfold liveSetConsistent. simpl.
  split; [exact Hnodup|]. split.
  - intros n Hn. destruct (Hlive n Hn) as (Hlt & (w & l & Hstart) & Hnot).
    split; [exact Hlt|]. split; [exists w, l; now right|].
    intros [Heq|Hin]; [now apply (Hstop n)|contradiction].
  - intros n [Heq|Hin]; [now contradiction (Hstop n)|now apply Hstopped].
Qed.

Lemma liveSetConsistent_schedule (audioBuffer : AudioBuffer) (s : State) :
  liveSetConsistent s -> liveSetConsistent (schedule audioBuffer s).
Proof.
  intros (Hnodup & Hlive & Hstopped).
  assert (Hfresh : ~ In (created s) (audioSources (this s))).
  { intros Hin. destruct (Hlive _ Hin) as (Hlt & _). lia. }
  unfold liveSetConsistent. simpl. rewrite (add_fresh _ _ Hfresh).
  split.
  { apply NoDup_app; [exact Hnodup|repeat constructor; intros []|].
    intros n Hn [<-|[]]. contradiction. }
  split.
  - intros n Hn. apply in_app_or in Hn. destruct Hn as [Hn|[<-|[]]].
    + destruct (Hlive n Hn) as (Hlt & (w & l & Hstart) & Hnot).
      split; [lia|]. split; [exists w, l; now right|].
      intros [Heq|Hin]; [discriminate|contradiction].
    + split; [lia|]. split; [eexists _, _; now left|].
      intros [Heq|Hin]; [discriminate|].
      specialize (Hstopped _ Hin). lia.
  - intros n [Heq|Hin]; [discriminate|]. specialize (Hstopped n Hin). lia.
Qed.

Lemma liveSetConsistent_interruptAudio (s : State) :
  liveSetConsistent s -> liveSetConsistent (interruptAudio s).
Proof.
  intros (Hnodup & Hlive & Hstopped).
  destruct (SessionFacts.interruptAudio_spec s) as (Hthis & Hlog & Hcreated).
  unfold liveSetConsistent. rewrite Hthis, Hlog, Hcreated. simpl.
  split; [constructor|]. split; [intros n []|].
  intros n Hin. apply in_app_or in Hin. destruct Hin as [Hnew|Hold].
  - rewrite <- in_rev in Hnew. apply in_map_iff in Hnew.
    destruct Hnew as (m & Heq & Hm). inversion Heq; subst.
    now apply Hlive.
  - now apply Hstopped.
Qed.

Lemma liveSetConsistent_ended (n : nat) (s : State) :
  liveSetConsistent s -> liveSetConsistent (ended n s).
Proof.
  intros (Hnodup & Hlive & Hstopped). unfold liveSetConsistent. simpl.
  split; [now apply delete_NoDup|]. split; [|exact Hstopped].
  intros m Hm. apply SessionFacts.delete_In in Hm. now apply Hlive.
Qed.

Lemma liveSetConsistent_teardown (session : bool) (s : State) :
  liveSetConsistent s -> liveSetConsistent (teardown session s).
Proof.
  intros Hinv. unfold teardown.
  set (s1 := if session then emit SessionClose s else s).
  assert (H1 : liveSetConsistent s1).
  { subst s1. destruct session; [|exact Hinv].
    apply liveSetConsistent_emit; [discriminate|exact Hinv]. }
  clearbody s1.
  assert (Hclose : forall field (s0 : State),
             liveSetConsistent s0 ->
             liveSetConsistent (snd (closeContext field s0))).
  { intros [c|] s0 H0; simpl; [|exact H0].
    apply liveSetConsistent_emit; [discriminate|exact H0]. }
  pose proof (Hclose (inputAudioContext (this s1)) s1 H1) as H2.
  destruct (closeContext (inputAudioContext (this s1)) s1) as [input s2].
  simpl in H2.
  set (s3 := update (set_inputAudioContext input) s2).
  assert (H3 : liveSetConsistent s3)
    by (apply (liveSetConsistent_ext s2); auto).
  pose proof (Hclose (outputAudioContext (this s3)) s3 H3) as H4.
  destruct (closeContext (outputAudioContext (this s3)) s3) as [output s4].
  simpl in H4.
  apply liveSetConsistent_interruptAudio.
  apply (liveSetConsistent_ext s4); auto.
Qed.

(** The calls of [disconnect] that a fulfilment resumes keep the
    invariant. *)
Lemma liveSetConsistent_resumed (calls : nat) (s : State) :
  liveSetConsistent s ->
  liveSetConsistent (Nat.iter calls (teardown true) s).
Proof.
  intros Hinv. induction calls as [|calls IH]; [exact Hinv|].
  simpl. now apply liveSetConsistent_teardown.
Qed.

Section Runs.

Variable decode : string -> option (list Z).
Variable decodeAudioData :
  list Z -> AudioContext -> N -> N -> option AudioBuffer.

Lemma liveSetConsistent_handleAudio (currentTime : N)
  (message : LiveServerMessage) (s : State) :
  liveSetConsistent s ->
  liveSetConsistent
    (snd (handleAudio decode decodeAudioData currentTime message s)).
Proof.
  intros Hinv.
  destruct (handleAudio decode decodeAudioData currentTime message s)
    as [result s'] eqn:Hrun.
  destruct (SessionFacts.handleAudio_effect _ _ _ _ _ _ _ Hrun)
    as [(Hlog & Hcreated & Hset) | (c & b & _ & _ & _ & ->)]; simpl.
  - now apply (liveSetConsistent_ext s).
  - apply liveSetConsistent_schedule.
    now apply (liveSetConsistent_ext s).
Qed.

Lemma liveSetConsistent_step (ai : option GoogleGenAI) (e : event)
  (s : State) :
  liveSetConsistent s ->
  liveSetConsistent (step decode decodeAudioData ai e s).
Proof.
  intros Hinv. destruct e; simpl.
  - unfold connect. destruct ai; [|exact Hinv].
    destruct (sessionPromise (this s)); [exact Hinv|]. simpl.
    apply (liveSetConsistent_ext
             (emit LiveConnect (emit (NewAudioContext 24000) s))); auto.
    repeat (apply liveSetConsistent_emit; [discriminate|]). exact Hinv.
  - unfold settle.
    destruct (sessionPromise (this s)) as [[| |reason|calls]|];
      destruct result; try exact Hinv.
    apply liveSetConsistent_resumed. exact Hinv.
  - unfold onopen.
    assert (H3 : liveSetConsistent
                   (emit GetUserMedia
                      (update
                         (set_inputAudioContext
                            (Some {| sampleRate := 16000; closed := false |}))
                         (emit (NewAudioContext 16000) s)))).
    { apply liveSetConsistent_emit; [discriminate|].
      apply (liveSetConsistent_ext (emit (NewAudioContext 16000) s)); auto.
      apply liveSetConsistent_emit; [discriminate|exact Hinv]. }
    destruct granted; simpl; [|exact H3].
    do 2 (apply liveSetConsistent_emit; [discriminate|]). exact H3.
  - unfold onmessage.
    assert (Hcalled : liveSetConsistent (emit (CallOnMessage message) s))
      by (apply liveSetConsistent_emit; [discriminate|exact Hinv]).
    pose proof (liveSetConsistent_handleAudio currentTime message _ Hcalled)
      as Haudio.
    destruct (handleAudio decode decodeAudioData currentTime message
                (emit (CallOnMessage message) s)) as [result s2].
    simpl in Haudio.
    destruct result; try exact Haudio.
    destruct (isInterrupted message); [|exact Haudio].
    now apply liveSetConsistent_interruptAudio.
  - apply liveSetConsistent_emit; [discriminate|exact Hinv].
  - apply liveSetConsistent_emit; [discriminate|exact Hinv].
  - now apply liveSetConsistent_ended.
  - unfold disconnect.
    destruct (sessionPromise (this s)) as [[| |reason|calls]|]; simpl;
      try exact Hinv; now apply liveSetConsistent_teardown.
Qed.

(** X1: in every state the session can reach, the live set holds no
    source twice, and every source in it has been created and started and
    has not been stopped. *)
Theorem reachable_liveSetConsistent :
  forall (ai : option GoogleGenAI) (s : State),
    reachable decode decodeAudioData ai s -> liveSetConsistent s.
Proof.
  intros ai s [events ->].
  assert (Hinit : liveSetConsistent init).
  { unfold liveSetConsistent. simpl.
    split; [constructor|]. split; intros n []. }
  revert Hinit. generalize init.
  induction events as [|e rest IH]; intros s0 H0; [exact H0|].
  simpl. apply IH. now apply liveSetConsistent_step.
Qed.

End Runs.

Section Cursor.

Variable decode : string -> option (list Z).
Variable decodeAudioData :
  list Z -> AudioContext -> N -> N -> option AudioBuffer.

Lemma handleAudio_cursor (currentTime : N) (message : LiveServerMessage)
  (s : State) :
  nextStartTime (this s)
  <= nextStartTime
       (this (snd (handleAudio decode decodeAudioData currentTime message s))).
Proof.
  unfold handleAudio.
  destruct (outputAudioContext (this s)) as [context|]; [|simpl; lia].
  destruct (base64Audio message) as [e|found]; [simpl; lia|].
  destruct (truthy found) as [text|]; [|simpl; lia].
  destruct (decode text) as [bytes|]; [|simpl; lia].
  destruct (decodeAudioData bytes context 24000 1); simpl; lia.
Qed.

(** X2: the cursor never goes back, except by an interruption or a
    disconnect, whether the disconnect runs at once or resumes when the
    promise it waited for is fulfilled: every other event, a message that
    schedules or fails included, leaves it where it was or further on. *)
Theorem cursor_never_goes_back :
  forall (ai : option GoogleGenAI) (e : event) (s : State),
    resetsCursor s e = false ->
    nextStartTime (this s)
    <= nextStartTime (this (step decode decodeAudioData ai e s)).
Proof.
  intros ai e s Hkeeps.
  destruct e; cbn [step resetsCursor] in *; try discriminate.
  - unfold connect. destruct ai; [|apply N.le_refl].
    destruct (sessionPromise (this s)); apply N.le_refl.
  - unfold settle.
    destruct (sessionPromise (this s)) as [[| |reason|calls]|];
      destruct result; try discriminate; apply N.le_refl.
  - unfold onopen. destruct granted; apply N.le_refl.
  - unfold onmessage. rewrite Hkeeps.
    pose proof (handleAudio_cursor currentTime message
                  (emit (CallOnMessage message) s)) as Hle.
    destruct (handleAudio decode decodeAudioData currentTime message
                (emit (CallOnMessage message) s)) as [result s2].
    cbn [snd] in Hle. destruct result; exact Hle.
  - apply N.le_refl.
  - apply N.le_refl.
  - apply N.le_refl.
Qed.

(** X3: when [handleAudio] fails on a message, on a part that is not
    audio as on a payload that does not decode, the [onmessage] callback
    ends with that failure before it looks at the interruption flag: even
    if the message signals an interruption the live set is as it was, no
    source is stopped, and all the log gains is the call of the caller's
    [onMessage]. *)
Theorem failed_message_skips_interruption :
  forall (currentTime : N) (message : LiveServerMessage) (s : State)
         (e : exception),
    fst (handleAudio decode decodeAudioData currentTime message
           (emit (CallOnMessage message) s))
    = Failed e ->
    fst (onmessage decode decodeAudioData currentTime message s) = Failed e /\
    audioSources
      (this (snd (onmessage decode decodeAudioData currentTime message s)))
    = audioSources (this s) /\
    log (snd (onmessage decode decodeAudioData currentTime message s))
    = CallOnMessage message :: log s /\
    created (snd (onmessage decode decodeAudioData currentTime message s))
    = created s.
Proof.
  intros currentTime message s e Hfail. unfold onmessage.
  destruct (handleAudio decode decodeAudioData currentTime message
              (emit (CallOnMessage message) s)) as [result s2] eqn:Hrun.
  simpl in Hfail. subst result. simpl.
  destruct (SessionFacts.handleAudio_effect _ _ _ _ _ _ _ Hrun)
    as [(Hlog & Hcreated & Hset) | (c & b & _ & _ & Hdone & _)];
    [|discriminate].
  now repeat split.
Qed.

End Cursor.

Lemma contextsConsistent_teardown (session : bool) (s : State) :
  contextsConsistent (this s) ->
  contextsConsistent (this (teardown session s)).
Proof.
  intros (Hopen & Hout & Hin).
  destruct (SessionFacts.teardown_spec session s) as (Hthis & _).
  rewrite Hthis. unfold contextsConsistent. simpl.
  split; [intros Hne; now contradiction Hne|].
  split; intros c Hc;
    [destruct (outputAudioContext (this s)) as [c0|] eqn:Hc0
    |destruct (inputAudioContext (this s)) as [c0|] eqn:Hc0];
    simpl in Hc; inversion Hc; subst; simpl; auto.
Qed.

Lemma contextsConsistent_resumed (calls : nat) (s : State) :
  contextsConsistent (this s) ->
  contextsConsistent (this (Nat.iter calls (teardown true) s)).
Proof.
  intros Hinv. induction calls as [|calls IH]; [exact Hinv|].
  simpl. now apply contextsConsistent_teardown.
Qed.

Section Contexts.

Variable decode : string -> option (list Z).
Variable decodeAudioData :
  list Z -> AudioContext -> N -> N -> option AudioBuffer.

Lemma contextsConsistent_step (ai : option GoogleGenAI) (e : event)
  (s : State) :
  contextsConsistent (this s) ->
  contextsConsistent (this (step decode decodeAudioData ai e s)).
Proof.
  intros Hinv. pose proof Hinv as (Hopen & Hout & Hin).
  destruct e; simpl.
  - unfold connect. destruct ai; [|exact Hinv].
    destruct (sessionPromise (this s)) eqn:Hp; [exact Hinv|].
    unfold contextsConsistent. simpl. split; [|split].
    + intros _. eexists. split; reflexivity.
    + intros c Hc. now inversion Hc.
    + exact Hin.
  - unfold settle.
    destruct (sessionPromise (this s)) as [[| |reason|calls]|] eqn:Hp;
      destruct result; try exact Hinv;
      try (unfold contextsConsistent; simpl; split; [|split; assumption];
           intros _; apply Hopen; discriminate).
    apply contextsConsistent_resumed.
    unfold contextsConsistent. simpl. split; [|split; assumption].
    intros _. apply Hopen. discriminate.
  - assert (H3 : contextsConsistent
                   (set_inputAudioContext
                      (Some {| sampleRate := 16000; closed := false |})
                      (this s))).
    { unfold contextsConsistent. simpl. split; [exact Hopen|].
      split; [exact Hout|]. intros c Hc. now inversion Hc. }
    unfold onopen. destruct granted; exact H3.
  - pose proof (SessionFacts.onmessage_frame decode decodeAudioData
                  currentTime message s) as Hpromise.
    unfold onmessage in *.
    pose proof (SessionFacts.handleAudio_frame decode decodeAudioData
                  currentTime message (emit (CallOnMessage message) s))
      as Hframe.
    cbv zeta in Hframe. destruct Hframe as (_ & Hi & Ho).
    destruct (handleAudio decode decodeAudioData currentTime message
                (emit (CallOnMessage message) s)) as [result s2].
    simpl in Hi, Ho.
    assert (Hsame : forall s3 : State,
               sessionPromise (this s3) = sessionPromise (this s) ->
               inputAudioContext (this s3) = inputAudioContext (this s2) ->
               outputAudioContext (this s3) = outputAudioContext (this s2) ->
               contextsConsistent (this s3)).
    { intros s3 H1 H2 H3. unfold contextsConsistent.
      rewrite H1, H2, H3, Hi, Ho. exact Hinv. }
    destruct result.
    + destruct (isInterrupted message); cbn [snd] in *.
      * destruct (SessionFacts.interruptAudio_spec s2) as (Hthis & _).
        apply Hsame; [exact Hpromise| |]; now rewrite Hthis.
      * now apply Hsame.
    + now apply Hsame.
    + now apply Hsame.
  - exact Hinv.
  - exact Hinv.
  - exact Hinv.
  - unfold disconnect.
    destruct (sessionPromise (this s)) as [[| |reason|calls]|] eqn:Hp;
      simpl; try exact Hinv;
      try (unfold contextsConsistent; simpl; split; [|split; assumption];
           intros _; apply Hopen; discriminate);
      match goal with
      | |- contextsConsistent (this (teardown ?b s)) =>
          destruct (SessionFacts.teardown_spec b s) as (Hthis & _);
          rewrite Hthis
      end;
      unfold contextsConsistent; simpl;
      (split; [intros Hne; now contradiction Hne|]);
      (split; intros c Hc;
       [destruct (outputAudioContext (this s)) as [c0|] eqn:Hc0
       |destruct (inputAudioContext (this s)) as [c0|] eqn:Hc0];
       simpl in Hc; inversion Hc; subst; simpl; auto).
Qed.

(** X4: in every state the session can reach, a stored session promise
    comes with an output context that is open, the output context runs at
    24000 Hz and the input context at 16000 Hz. *)
Theorem reachable_contextsConsistent :
  forall (ai : option GoogleGenAI) (s : State),
    reachable decode decodeAudioData ai s -> contextsConsistent (this s).
Proof.
  intros ai s [events ->].
  assert (Hinit : contextsConsistent (this init)).
  { unfold contextsConsistent. simpl.
    split; [intros H; now contradiction H|]. split; intros c Hc; discriminate. }
  revert Hinit. generalize init.
  induction events as [|e rest IH]; intros s0 H0; [exact H0|].
  simpl. apply IH. now apply contextsConsistent_step.
Qed.

End Contexts.

(** X1 on the connected session of the examples. *)
Lemma reachable_liveSetConsistent_witness : liveSetConsistent connectedState.
Proof.
  apply (reachable_liveSetConsistent exampleDecode exampleDecodeAudioData
           (Some (Client "key"))).
  exists [Connect; Settle Fulfilled; Open true;
          Message 7 (audioMessage "abcd" None)].
  reflexivity.
Defined.

(** X2 on a payload received by the connected session of the examples. *)
Lemma cursor_never_goes_back_witness :
  nextStartTime (this connectedState)
  <= nextStartTime
       (this (step exampleDecode exampleDecodeAudioData
                (Some (Client "key"))
                (Message 3 (audioMessage "ab" None)) connectedState)).
Proof.
  apply (cursor_never_goes_back exampleDecode exampleDecodeAudioData).
  reflexivity.
Defined.

(** X3 on a text part that signals an interruption while a source plays:
    the source stays live. *)
Lemma failed_message_skips_interruption_witness :
  isInterrupted interruptingText = true /\
  fst (onmessage exampleDecode exampleDecodeAudioData 9 interruptingText
         connectedState)
  = Failed TypeError /\
  audioSources
    (this (snd (onmessage exampleDecode exampleDecodeAudioData 9
                  interruptingText connectedState)))
  = [0%nat].
Proof.
  destruct (failed_message_skips_interruption exampleDecode
              exampleDecodeAudioData 9 interruptingText connectedState
              TypeError)
    as (Hfail & Hlive & _).
  - reflexivity.
  - split; [reflexivity|]. split; [exact Hfail|exact Hlive].
Defined.

(** X4 on the connected session of the examples. *)
Lemma reachable_contextsConsistent_witness :
  contextsConsistent (this connectedState).
Proof.
  apply (reachable_contextsConsistent exampleDecode exampleDecodeAudioData
           (Some (Client "key"))).
  exists [Connect; Settle Fulfilled; Open true;
          Message 7 (audioMessage "abcd" None)].
  reflexivity.
Defined.

(** X5: a [connect] that follows a completed [disconnect] goes through:
    it opens a transport and a new, open output context, and starts from an
    empty live set and a cursor at 0, whatever was queued before. *)
Theorem connect_after_disconnect :
  forall (client : GoogleGenAI) (s : State),
    sessionPromise (this s) = None \/
    sessionPromise (this s) = Some Fulfilled ->
    exists s' s'',
      disconnect s = (Done, s') /\
      connect (Some client) s' = (Done, s'') /\
      log s'' = LiveConnect :: NewAudioContext 24000 :: log s' /\
      sessionPromise (this s'') = Some Pending /\
      outputAudioContext (this s'')
      = Some {| sampleRate := 24000; closed := false |} /\
      nextStartTime (this s'') = 0 /\
      audioSources (this s'') = [].
Proof.
  intros client s Hsettled.
  assert (Hrun : exists session, disconnect s = (Done, teardown session s)).
  { unfold disconnect. destruct Hsettled as [-> | ->]; eauto. }
  destruct Hrun as (session & Hrun).
  destruct (SessionFacts.teardown_spec session s) as (Hthis & _).
  assert (Hpromise : sessionPromise (this (teardown session s)) = None)
    by now rewrite Hthis.
  assert (Hcursor : nextStartTime (this (teardown session s)) = 0)
    by now rewrite Hthis.
  assert (Hlive : audioSources (this (teardown session s)) = [])
    by now rewrite Hthis.
  exists (teardown session s). eexists.
  split; [exact Hrun|].
  unfold connect. rewrite Hpromise.
  split; [reflexivity|]. now repeat split.
Qed.

(** X5 on the connected session of the examples. *)
Lemma connect_after_disconnect_witness :
  exists s' s'',
    disconnect connectedState = (Done, s') /\
    connect (Some (Client "key")) s' = (Done, s'') /\
    sessionPromise (this s'') = Some Pending /\
    audioSources (this s'') = [].
Proof.
  destruct (connect_after_disconnect (Client "key") connectedState)
    as (s' & s'' & H1 & H2 & _ & H4 & _ & _ & H7).
  - right. reflexivity.
  - exists s', s''. repeat split; assumption.
Defined.

End SessionInvariants.

(** ** The component around the session *)

Module ComponentFacts.

Import LiveChatSession.
Import Examples.

(** X6: once the session holds a promise, a transport error or a remote
    close followed by the component's [connect] (the retry and start
    buttons) does not connect again: the component shows connecting, keeps
    the same session object, and asks for the microphone, but no transport
    is opened and no context created. *)
Theorem retry_does_not_reconnect :
  forall (client : GoogleGenAI) (p : SupportChatbot.Page)
         (o : LiveChatSession) (promise : Promise),
    SupportChatbot.liveChatSessionRef p = Some o ->
    sessionPromise o = Some promise ->
    SupportChatbot.connect (Some client) true
      (SupportChatbot.transportErrored p)
    = {| SupportChatbot.connectionState := SupportChatbot.connecting;
         SupportChatbot.liveChatSessionRef := Some o;
         SupportChatbot.effects :=
           GetUserMedia :: CallOnError :: SupportChatbot.effects p;
         SupportChatbot.nodes := SupportChatbot.nodes p |} /\
    SupportChatbot.connect (Some client) true
      (SupportChatbot.transportClosed p)
    = {| SupportChatbot.connectionState := SupportChatbot.connecting;
         SupportChatbot.liveChatSessionRef := Some o;
         SupportChatbot.effects :=
           GetUserMedia :: CallOnClose :: SupportChatbot.effects p;
         SupportChatbot.nodes := SupportChatbot.nodes p |}.
Proof.
  intros client p o promise Href Hpromise.
  unfold SupportChatbot.transportErrored, SupportChatbot.transportClosed,
    SupportChatbot.deliver, SupportChatbot.connect, connect.
  rewrite Href. simpl. rewrite Hpromise. split; reflexivity.
Qed.

(** X6 on the connected component of the examples. *)
Lemma retry_does_not_reconnect_witness :
  SupportChatbot.connectionState
    (SupportChatbot.connect (Some (Client "key")) true
       (SupportChatbot.transportErrored connectedPage))
  = SupportChatbot.connecting /\
  SupportChatbot.effects
    (SupportChatbot.connect (Some (Client "key")) true
       (SupportChatbot.transportErrored connectedPage))
  = GetUserMedia :: CallOnError :: SupportChatbot.effects connectedPage.
Proof.
  destruct (retry_does_not_reconnect (Client "key") connectedPage
              {| sessionPromise := Some Pending;
                 inputAudioContext :=
                   Some {| sampleRate := 16000; closed := false |};
                 outputAudioContext :=
                   Some {| sampleRate := 24000; closed := false |};
                 nextStartTime := 0;
                 audioSources := [] |}
              Pending)
    as [Herror _].
  - reflexivity.
  - reflexivity.
  - rewrite Herror. split; reflexivity.
Defined.

(** X7: when the microphone is refused, or when no API key is configured,
    the component's [connect] ends in the error state having asked for the
    microphone and nothing else: no context, no transport, and the session
    object, created if there was none, is left as it was. *)
Theorem connect_refused :
  forall (ai : option GoogleGenAI) (granted : bool)
         (p : SupportChatbot.Page),
    granted = false \/ ai = None ->
    SupportChatbot.connect ai granted p
    = {| SupportChatbot.connectionState := SupportChatbot.error;
         SupportChatbot.liveChatSessionRef :=
           Some match SupportChatbot.liveChatSessionRef p with
                | Some o => o
                | None => new
                end;
         SupportChatbot.effects := GetUserMedia :: SupportChatbot.effects p;
         SupportChatbot.nodes := SupportChatbot.nodes p |}.
Proof.
  intros ai granted p [-> | ->]; unfold SupportChatbot.connect;
    [reflexivity|].
  destruct granted; reflexivity.
Qed.

(** X7 on a freshly mounted component with no key. *)
Lemma connect_refused_witness :
  SupportChatbot.connect (ai None) true SupportChatbot.mount
  = {| SupportChatbot.connectionState := SupportChatbot.error;
       SupportChatbot.liveChatSessionRef := Some new;
       SupportChatbot.effects := [GetUserMedia];
       SupportChatbot.nodes := 0 |}.
Proof.
  apply (connect_refused (ai None) true SupportChatbot.mount).
  right. reflexivity.
Defined.

(** X8: the component's [disconnect] drops its session, so the [connect]
    that follows always starts a new one: a transport is opened and an
    output context created on a session with an empty live set and a cursor
    at 0, whatever state the dropped session was in. *)
Theorem connect_after_component_disconnect :
  forall (client : GoogleGenAI) (p : SupportChatbot.Page),
    SupportChatbot.connectionState (SupportChatbot.disconnect p)
    = SupportChatbot.disconnected /\
    SupportChatbot.liveChatSessionRef (SupportChatbot.disconnect p) = None /\
    SupportChatbot.connect (Some client) true (SupportChatbot.disconnect p)
    = {| SupportChatbot.connectionState := SupportChatbot.connecting;
         SupportChatbot.liveChatSessionRef :=
           Some {| sessionPromise := Some Pending;
                   inputAudioContext := None;
                   outputAudioContext :=
                     Some {| sampleRate := 24000; closed := false |};
                   nextStartTime := 0;
                   audioSources := [] |};
         SupportChatbot.effects :=
           LiveConnect :: NewAudioContext 24000 :: GetUserMedia
             :: SupportChatbot.effects (SupportChatbot.disconnect p);
         SupportChatbot.nodes :=
           SupportChatbot.nodes (SupportChatbot.disconnect p) |}.
Proof.
  intros client p. unfold SupportChatbot.disconnect.
  destruct (SupportChatbot.liveChatSessionRef p); repeat split.
Qed.

(** X18: when the microphone is refused at the time the transport
    opens, the session's open callback fails after it has created the input
    context: the context is left open, capture is not started, the caller's
    [onOpen] is not called, and the component stays in the state it was
    in. *)
Theorem open_refused :
  forall (p : SupportChatbot.Page) (o : LiveChatSession),
    SupportChatbot.liveChatSessionRef p = Some o ->
    fst (onopen false
           {| this := o;
              log := SupportChatbot.effects p;
              created := SupportChatbot.nodes p |})
    = Failed NotAllowedError /\
    SupportChatbot.transportOpened false p
    = {| SupportChatbot.connectionState := SupportChatbot.connectionState p;
         SupportChatbot.liveChatSessionRef :=
           Some (set_inputAudioContext
                   (Some {| sampleRate := 16000; closed := false |}) o);
         SupportChatbot.effects :=
           GetUserMedia :: NewAudioContext 16000 :: SupportChatbot.effects p;
         SupportChatbot.nodes := SupportChatbot.nodes p |}.
Proof.
  intros p o Href. split; [reflexivity|].
  unfold SupportChatbot.transportOpened, SupportChatbot.deliver.
  now rewrite Href.
Qed.

(** X18 on a component that is connecting. *)
Lemma open_refused_witness :
  SupportChatbot.connectionState
    (SupportChatbot.transportOpened false
       (SupportChatbot.connect (Some (Client "key")) true
          SupportChatbot.mount))
  = SupportChatbot.connecting.
Proof.
  destruct (open_refused
              (SupportChatbot.connect (Some (Client "key")) true
                 SupportChatbot.mount)
              {| sessionPromise := Some Pending;
                 inputAudioContext := None;
                 outputAudioContext :=
                   Some {| sampleRate := 24000; closed := false |};
                 nextStartTime := 0;
                 audioSources := [] |})
    as [_ Hpage].
  - reflexivity.
  - rewrite Hpage. reflexivity.
Defined.

(** The callbacks the component reacts to end and log the same whatever
    the fields of the session they belong to. *)
Lemma callbacks_ignore_fields (o o' : LiveChatSession) (l : list effect)
  (n : nat) (granted : bool) :
  let s := {| this := o; log := l; created := n |} in
  let s' := {| this := o'; log := l; created := n |} in
  fst (onopen granted s) = fst (onopen granted s') /\
  log (snd (onopen granted s)) = log (snd (onopen granted s')) /\
  fst (onerror s) = fst (onerror s') /\
  log (snd (onerror s)) = log (snd (onerror s')) /\
  fst (onclose s) = fst (onclose s') /\
  log (snd (onclose s)) = log (snd (onclose s')).
Proof. unfold onopen. destruct granted; repeat split. Qed.

(** X19: the component reacts to the callbacks of a session it has
    dropped.  After its [disconnect], a late error callback still puts it
    in the error state, a late close leaves it disconnected and a late open
    shows it connected, each time with no session referenced; the calls are
    logged as for a session it holds. *)
Theorem late_callbacks_still_react :
  forall p : SupportChatbot.Page,
    let dropped := SupportChatbot.disconnect p in
    SupportChatbot.transportErrored dropped
    = {| SupportChatbot.connectionState := SupportChatbot.error;
         SupportChatbot.liveChatSessionRef := None;
         SupportChatbot.effects :=
           CallOnError :: SupportChatbot.effects dropped;
         SupportChatbot.nodes := SupportChatbot.nodes dropped |} /\
    SupportChatbot.transportClosed dropped
    = {| SupportChatbot.connectionState := SupportChatbot.disconnected;
         SupportChatbot.liveChatSessionRef := None;
         SupportChatbot.effects :=
           CallOnClose :: SupportChatbot.effects dropped;
         SupportChatbot.nodes := SupportChatbot.nodes dropped |} /\
    SupportChatbot.transportOpened true dropped
    = {| SupportChatbot.connectionState := SupportChatbot.connected;
         SupportChatbot.liveChatSessionRef := None;
         SupportChatbot.effects :=
           CallOnOpen :: CaptureStart :: GetUserMedia
             :: NewAudioContext 16000 :: SupportChatbot.effects dropped;
         SupportChatbot.nodes := SupportChatbot.nodes dropped |}.
Proof.
  intros p dropped.
  assert (Href : SupportChatbot.liveChatSessionRef dropped = None).
  { subst dropped. unfold SupportChatbot.disconnect.
    now destruct (SupportChatbot.liveChatSessionRef p). }
  unfold SupportChatbot.transportErrored, SupportChatbot.transportClosed,
    SupportChatbot.transportOpened, SupportChatbot.deliver.
  rewrite Href. repeat split.
Qed.

End ComponentFacts.

(** ** More on the encoder *)

Module EncoderFacts.

Import PCM.

Local Open Scope Z_scope.

(** Truncation toward zero keeps the order. *)
Lemma truncate_monotone (p q : Q) :
  (p <= q)%Q -> truncate p <= truncate q.
Proof.
  destruct p as [n1 d1], q as [n2 d2]. unfold Qle, truncate. simpl.
  intros Hle.
  destruct (PCMFacts.quot_remainder n1 (Zpos d1) ltac:(lia))
    as (r1 & Hr1 & Habs1 & Hpos1 & Hneg1).
  destruct (PCMFacts.quot_remainder n2 (Zpos d2) ltac:(lia))
    as (r2 & Hr2 & Habs2 & Hpos2 & Hneg2).
  set (t1 := n1 ÷ Zpos d1) in *. set (t2 := n2 ÷ Zpos d2) in *.
  destruct (Z_lt_le_dec t2 t1) as [Hlt|]; [exfalso|assumption].
  assert (Hstep : t2 + 1 <= t1) by lia.
  destruct (Z_lt_le_dec n1 0) as [Hn1|Hn1].
  - destruct (Z_lt_le_dec n2 0) as [Hn2|Hn2].
    + (* both negative: the quotients are the ceilings *)
      assert (H2 : n2 <= Zpos d2 * t2) by lia.
      assert (H3 : n1 * Zpos d2 <= Zpos d1 * t2 * Zpos d2) by nia.
      assert (H4 : n1 <= Zpos d1 * t2) by nia.
      assert (H5 : Zpos d1 * t1 < Zpos d1 * (t2 + 1)) by lia.
      nia.
    + assert (H2 : 0 <= t2) by nia.
      assert (H1 : t1 <= 0) by nia.
      lia.
  - (* the smaller one is not negative: the quotients are the floors *)
    assert (H1 : Zpos d1 * t1 <= n1) by lia.
    assert (H3 : Zpos d1 * t1 * Zpos d2 <= n2 * Zpos d1) by nia.
    assert (H4 : t1 * Zpos d2 <= n2) by nia.
    assert (Hn2 : 0 <= n2) by nia.
    assert (H5 : Zpos d2 * (t2 + 1) <= n2) by nia.
    specialize (Hpos2 Hn2). lia.
Qed.

(** X10: below full scale the encoder keeps the order of the samples: of
    two samples of a block in [-1, 1), the smaller one never gets the
    larger 16-bit value. *)
Theorem createPcmBlob_monotone :
  forall (samples : Float32Array) (i j : nat) (p q : Q),
    (i < List.length samples)%nat ->
    (j < List.length samples)%nat ->
    nth i samples NaN = Finite p ->
    nth j samples NaN = Finite q ->
    (-1 <= p)%Q -> (p <= q)%Q -> (q < 1)%Q ->
    int16At (pcmBytes samples) i <= int16At (pcmBytes samples) j.
Proof.
  intros samples i j p q Hi Hj Hp Hq Hlo Hpq Hhi.
  rewrite !PCMFacts.int16At_pcmBytes, Hp, Hq by assumption.
  rewrite !PCMFacts.ToInt16_below_full_scale.
  - apply truncate_monotone. apply Qmult_le_compat_r; [exact Hpq|].
    unfold Qle; simpl; lia.
  - now apply Qle_trans with p.
  - exact Hhi.
  - exact Hlo.
  - now apply Qle_lt_trans with q.
Qed.

(** X10 on a block of two samples. *)
Lemma createPcmBlob_monotone_witness :
  int16At (pcmBytes [Finite (-1 # 4); Finite (1 # 2)]) 0
  <= int16At (pcmBytes [Finite (-1 # 4); Finite (1 # 2)]) 1.
Proof.
  apply (createPcmBlob_monotone [Finite (-1 # 4); Finite (1 # 2)] 0 1
           (-1 # 4) (1 # 2)).
  - simpl; lia.
  - simpl; lia.
  - reflexivity.
  - reflexivity.
  - unfold Qle; simpl; lia.
  - unfold Qle; simpl; lia.
  - unfold Qlt; simpl; lia.
Defined.

(** X11: strictly inside full scale the encoder is odd: the opposite
    sample gets the opposite 16-bit value, truncation being toward zero.
    (At -1.0 it is not: both -1.0 and 1.0 are stored as -32768.) *)
Theorem createPcmBlob_odd :
  forall q : Q,
    (-1 < q)%Q -> (q < 1)%Q ->
    scaled [Finite (- q)] = map Z.opp (scaled [Finite q]).
Proof.
  intros q Hlo Hhi. rewrite !PCMFacts.scaled_map. cbn [map].
  assert (Hlo' : (-1 <= q)%Q) by now apply Qlt_le_weak.
  assert (Hneg_lo : (-1 <= - q)%Q).
  { destruct q as [n d]. unfold Qle, Qlt, Qopp in *. simpl in *. lia. }
  assert (Hneg_hi : (- q < 1)%Q).
  { destruct q as [n d]. unfold Qle, Qlt, Qopp in *. simpl in *. lia. }
  rewrite !PCMFacts.ToInt16_below_full_scale by assumption.
  f_equal. destruct q as [n d]. unfold truncate. simpl.
  rewrite <- Z.quot_opp_l by lia. f_equal. lia.
Qed.

(** X11 on a quarter of full scale. *)
Lemma createPcmBlob_odd_witness :
  scaled [Finite (- (1 # 4))] = map Z.opp (scaled [Finite (1 # 4)]).
Proof.
  apply (createPcmBlob_odd (1 # 4)).
  - unfold Qlt; simpl; lia.
  - unfold Qlt; simpl; lia.
Defined.

End EncoderFacts.

(** ** The transcript *)

Module TranscriptFacts.

Import Transcript.
Import Scenarios.

Lemma append_nil_r (s : string) : (s ++ "")%string = s.
Proof. induction s as [|c s IH]; simpl; [reflexivity|now rewrite IH]. Qed.

Lemma append_assoc (a b c : string) :
  ((a ++ b) ++ c)%string = (a ++ (b ++ c))%string.
Proof. induction a as [|x a IH]; simpl; [reflexivity|now rewrite IH]. Qed.

Lemma appended_split (prev : string) (t : Transcription) :
  appended prev t = (prev ++ appended "" t)%string.
Proof. unfold appended. now destruct (text t). Qed.

Section Callback.

Variable trim : string -> string.
Variable capturedUserInput capturedModelOutput : string.

(** The turns the callback can add to the history. *)
Lemma completed_split (prev : list ChatMessage) :
  completed trim capturedUserInput capturedModelOutput prev
  = prev ++ completed trim capturedUserInput capturedModelOutput [].
Proof.
  unfold completed.
  destruct (String.eqb (trim capturedUserInput) "");
    destruct (String.eqb (trim capturedModelOutput) ""); simpl;
    rewrite ?app_nil_r, <- ?app_assoc; reflexivity.
Qed.

(** One message: the fragments go to the running transcripts, unless the
    message ends the turn, which empties them. *)
Lemma onMessage_spec (message : Message) (c : Chat) :
  onMessage trim capturedUserInput capturedModelOutput message c
  = if completesTurn message
    then {| history :=
              history c
              ++ completed trim capturedUserInput capturedModelOutput [];
            currentUserInput := "";
            currentModelOutput := "" |}
    else {| history := history c;
            currentUserInput :=
              (currentUserInput c ++ userFragment message)%string;
            currentModelOutput :=
              (currentModelOutput c ++ modelFragment message)%string |}.
Proof.
  unfold onMessage, completesTurn, userFragment, modelFragment.
  destruct c as [h u m].
  destruct (serverContent message) as [content|];
    [|simpl; now rewrite !append_nil_r].
  destruct (inputTranscription content) as [ti|],
           (outputTranscription content) as [to|],
           (turnComplete content) as [[|]|]; simpl;
    rewrite ?(completed_split h), ?append_nil_r;
    rewrite ?(appended_split u), ?(appended_split m); reflexivity.
Qed.

(** X12: while no message ends the turn, the two running transcripts
    grow by what each message carries, in arrival order, a transcription
    without text counting as the word "undefined"; the history does not
    change. *)
Theorem onMessages_accumulate :
  forall (messages : list Message) (c : Chat),
    Forall (fun message => completesTurn message = false) messages ->
    onMessages trim capturedUserInput capturedModelOutput messages c
    = {| history := history c;
         currentUserInput :=
           (currentUserInput c
            ++ fold_right append "" (map userFragment messages))%string;
         currentModelOutput :=
           (currentModelOutput c
            ++ fold_right append "" (map modelFragment messages))%string |}.
Proof.
  intros messages c Hall. revert c.
  induction Hall as [|message rest Hopen _ IH]; intros c.
  - simpl. rewrite !append_nil_r. now destruct c.
  - unfold onMessages in *. simpl fold_left. rewrite IH.
    rewrite onMessage_spec, Hopen. simpl.
    now rewrite !append_assoc.
Qed.

(** X13: the history only ever grows at its end, by one copy per message
    that ends a turn of the turns made of the two captured transcripts;
    what the running transcripts held at that moment does not enter.  So a
    callback that captured two blank transcripts, as at a first [connect],
    never adds to the history. *)
Theorem onMessages_history :
  forall (messages : list Message) (c : Chat),
    history
      (onMessages trim capturedUserInput capturedModelOutput messages c)
    = history c
      ++ List.concat
           (repeat (completed trim capturedUserInput capturedModelOutput [])
              (List.length (filter completesTurn messages))) /\
    (trim capturedUserInput = EmptyString ->
     trim capturedModelOutput = EmptyString ->
     history
       (onMessages trim capturedUserInput capturedModelOutput messages c)
     = history c).
Proof.
  intros messages c.
  assert (Hgrow :
            history
              (onMessages trim capturedUserInput capturedModelOutput
                 messages c)
            = history c
              ++ List.concat
                   (repeat
                      (completed trim capturedUserInput capturedModelOutput
                         [])
                      (List.length (filter completesTurn messages)))).
  { revert c. induction messages as [|message rest IH]; intros c.
    - simpl. now rewrite app_nil_r.
    - unfold onMessages in *. simpl fold_left. rewrite IH.
      rewrite onMessage_spec. simpl filter.
      destruct (completesTurn message); simpl; [|reflexivity].
      now rewrite <- app_assoc. }
  split; [exact Hgrow|].
  intros Huser Hmodel. rewrite Hgrow. clear Hgrow.
  unfold completed. rewrite Huser, Hmodel. simpl.
  induction (List.length (filter completesTurn messages)) as [|n IHn];
    simpl; [now rewrite app_nil_r|exact IHn].
Qed.

End Callback.

(** X12 on two fragments heard and one spoken. *)
Lemma onMessages_accumulate_witness :
  onMessages exampleTrim "" "" [heard "hel"; spoken "hi"; heard "lo"]
    {| history := []; currentUserInput := ""; currentModelOutput := "" |}
  = {| history := [];
       currentUserInput := "hello";
       currentModelOutput := "hi" |}.
Proof.
  rewrite (onMessages_accumulate exampleTrim "" ""
             [heard "hel"; spoken "hi"; heard "lo"]).
  - reflexivity.
  - repeat constructor.
Defined.

(** X13 on a whole turn received by a callback that captured blank
    transcripts: the turn is lost. *)
Lemma onMessages_history_witness :
  history
    (onMessages exampleTrim "" " " [heard "hello"; spoken "hi"; turnEnd]
       {| history := []; currentUserInput := ""; currentModelOutput := "" |})
  = [].
Proof.
  destruct (onMessages_history exampleTrim "" " "
              [heard "hello"; spoken "hi"; turnEnd]
              {| history := [];
                 currentUserInput := "";
                 currentModelOutput := "" |})
    as [_ Hblank].
  apply Hblank; reflexivity.
Defined.

End TranscriptFacts.

(** ** The one-shot request and its form *)

Module DeviceControlFacts.

Import LiveChatSession.
Import GeminiService.
Import DeviceControlAI.
Import Scenarios.

Section Request.

Variable Settings : Type.
Variable generateContent : list RequestPart -> exception + option string.
Variable trim : string -> string.
Variable JSONparse : string -> option Settings.

(** How the call ends, and what it has sent by then. *)
Lemma getDeviceSettingsForMaterial_cases (ai : option GoogleGenAI)
  (prompt : string) (imageBase64 : option string) :
  let parts := requestParts prompt imageBase64 in
  match getDeviceSettingsForMaterial Settings generateContent trim
          JSONparse ai prompt imageBase64 with
  | (sent, inl message) =>
      (ai = None /\ sent = [] /\ message = notConfigured) \/
      (ai <> None /\ sent = [parts] /\ message = failed /\
       forall text, generateContent parts = inr (Some text) ->
                    JSONparse (trim text) = None)
  | (sent, inr settings) =>
      ai <> None /\ sent = [parts] /\
      exists text, generateContent parts = inr (Some text) /\
                   JSONparse (trim text) = Some settings
  end.
Proof.
  intros parts. unfold getDeviceSettingsForMaterial. fold parts.
  destruct ai as [client|]; [|left; now repeat split].
  destruct (generateContent parts) as [e|[text|]] eqn:Hanswer.
  - right. repeat split; try discriminate.
  - destruct (JSONparse (trim text)) as [settings|] eqn:Hparse.
    + split; [discriminate|]. split; [reflexivity|]. now exists text.
    + right. repeat split; try discriminate.
      intros text' Heq. inversion Heq; subst. exact Hparse.
  - right. repeat split; try discriminate.
Qed.

(** The parts of a request: the prompt, behind the image if there is a
    non-empty one. *)
Lemma requestParts_shape (prompt : string) (imageBase64 : option string) :
  requestParts prompt imageBase64 = [Text prompt] \/
  exists image, imageBase64 = Some image /\ image <> EmptyString /\
                requestParts prompt imageBase64
                = [InlineData "image/jpeg" image; Text prompt].
Proof.
  unfold requestParts.
  destruct imageBase64 as [image|]; simpl; [|now left].
  destruct (String.eqb_spec image ""); simpl; [now left|].
  right. now exists image.
Qed.

(** X14: [getDeviceSettingsForMaterial] ends in one of three ways.  With
    no client it throws "API key not configured." and sends nothing.  With
    a client it sends exactly one request, the prompt last and the image,
    if one is given and not empty, first; then either the service answered
    with a text that parses once trimmed, and the parsed value is returned,
    or it throws "Failed to get AI-powered settings. Please try again.",
    whatever went wrong. *)
Theorem getDeviceSettingsForMaterial_outcomes :
  forall (ai : option GoogleGenAI) (prompt : string)
         (imageBase64 : option string),
    let parts := requestParts prompt imageBase64 in
    match getDeviceSettingsForMaterial Settings generateContent trim
            JSONparse ai prompt imageBase64 with
    | (sent, inl message) =>
        (ai = None /\ sent = [] /\ message = notConfigured) \/
        (ai <> None /\ sent = [parts] /\ message = failed /\
         forall text, generateContent parts = inr (Some text) ->
                      JSONparse (trim text) = None)
    | (sent, inr settings) =>
        ai <> None /\ sent = [parts] /\
        exists text, generateContent parts = inr (Some text) /\
                     JSONparse (trim text) = Some settings
    end /\
    last parts (Text "") = Text prompt /\
    (parts = [Text prompt] \/
     exists image, imageBase64 = Some image /\ image <> EmptyString /\
                   parts = [InlineData "image/jpeg" image; Text prompt]).
Proof.
  intros ai prompt imageBase64 parts. split.
  - apply getDeviceSettingsForMaterial_cases.
  - subst parts.
    destruct (requestParts_shape prompt imageBase64)
      as [Hone|(image & Himage & Hne & Htwo)].
    + rewrite Hone. split; [reflexivity|now left].
    + rewrite Htwo. split; [reflexivity|]. right. now exists image.
Qed.

End Request.

Lemma shown_message (message : string) :
  message <> EmptyString -> shown (Some message) = message.
Proof.
  intros Hne. unfold shown. simpl.
  now destruct (String.eqb_spec message "").
Qed.

Section Form.

Variable ai : option GoogleGenAI.
Variable generateContent : list RequestPart -> exception + option string.
Variable trim : string -> string.
Variable JSONparse : string -> option JSON.
Variable t : string -> string.

(** The [try] of [handleSubmit] from the request on. *)
Lemma request_outcomes (c : Component) (imageBase64 : option string) :
  let r :=
    match getDeviceSettingsForMaterial JSON generateContent trim JSONparse
            ai (fullPrompt (prompt c)) imageBase64 with
    | (sent, inr settings) => (sent, settled c "" settings)
    | (sent, inl message) => (sent, settled c (shown (Some message)) JNull)
    end in
  prompt (snd r) = prompt c /\
  image (snd r) = image c /\
  isLoading (snd r) = false /\
  ((exists parts text value,
      fst r = [parts] /\
      generateContent parts = inr (Some text) /\
      JSONparse (trim text) = Some value /\
      result (snd r) = value /\
      error (snd r) = EmptyString)
   \/
   result (snd r) = JNull /\
   (List.length (fst r) <= 1)%nat /\
   (error (snd r) = notConfigured \/
    error (snd r) = failed \/
    error (snd r) = "An unknown error occurred."%string)).
Proof.
  pose proof (getDeviceSettingsForMaterial_cases JSON generateContent trim
                JSONparse ai (fullPrompt (prompt c)) imageBase64) as Hcall.
  cbv zeta in Hcall.
  destruct (getDeviceSettingsForMaterial JSON generateContent trim
              JSONparse ai (fullPrompt (prompt c)) imageBase64)
    as [sent [message|settings]]; cbv zeta; cbn [fst snd].
  - repeat (split; [reflexivity|]). right. split; [reflexivity|].
    destruct Hcall as [(_ & -> & ->)|(_ & -> & -> & _)];
      (split; [simpl; lia|]); cbn [settled error];
      rewrite shown_message by discriminate; auto.
  - destruct Hcall as (_ & -> & text & Hanswer & Hparse).
    repeat (split; [reflexivity|]). left.
    exists (requestParts (fullPrompt (prompt c)) imageBase64), text, settings.
    now repeat split.
Qed.

(** X15: [handleSubmit] with neither description nor picture sends nothing
    and only sets the error to the translated hint.  With either, it ends
    not loading, description and picture untouched, in one of two ways.
    Either exactly one request was sent, the service answered with a text
    that parses once trimmed, the error is empty and the result is the
    parsed value, whatever it is: when that value is [null] or another
    falsy value the component shows neither a result nor an error.  Or the
    result is [null], at most one request was sent and the error is one of
    three texts. *)
Theorem handleSubmit_outcomes :
  forall c : Component,
    let sent := fst (handleSubmit ai generateContent trim JSONparse t c) in
    let c' := snd (handleSubmit ai generateContent trim JSONparse t c) in
    prompt c' = prompt c /\
    image c' = image c /\
    (prompt c = EmptyString /\ image c = None /\
     sent = [] /\
     error c' = t "ai.errorProvideInput" /\
     result c' = result c /\
     isLoading c' = isLoading c
     \/
     (prompt c <> EmptyString \/ image c <> None) /\
     isLoading c' = false /\
     ((exists parts text value,
         sent = [parts] /\
         generateContent parts = inr (Some text) /\
         JSONparse (trim text) = Some value /\
         result c' = value /\
         error c' = EmptyString)
      \/
      result c' = JNull /\
      (List.length sent <= 1)%nat /\
      (error c' = notConfigured \/
       error c' = failed \/
       error c' = "An unknown error occurred."%string))).
Proof.
  intros c sent c'. subst sent c'. unfold handleSubmit.
  destruct (String.eqb_spec (prompt c) "") as [Hempty|Hprompt];
    destruct (image c) as [file|] eqn:Himage.
  - destruct (readAsDataURL file) as [url|].
    + destruct (request_outcomes c (secondField url))
        as (Hp & Hi & Hl & Hr).
      split; [exact Hp|]. split; [rewrite Hi; exact Himage|]. right.
      split; [right; discriminate|]. now split.
    + split; [reflexivity|].
      split; [first [reflexivity | exact Himage]|]. right.
      split; [right; discriminate|]. split; [reflexivity|]. right.
      split; [reflexivity|]. split; [simpl; lia|]. now right; right.
  - split; [reflexivity|].
    split; [first [reflexivity | exact Himage]|]. left.
    now repeat split.
  - destruct (readAsDataURL file) as [url|].
    + destruct (request_outcomes c (secondField url))
        as (Hp & Hi & Hl & Hr).
      split; [exact Hp|]. split; [rewrite Hi; exact Himage|]. right.
      split; [now left|]. now split.
    + split; [reflexivity|].
      split; [first [reflexivity | exact Himage]|]. right.
      split; [now left|]. split; [reflexivity|]. right.
      split; [reflexivity|]. split; [simpl; lia|]. now right; right.
  - destruct (request_outcomes c None) as (Hp & Hi & Hl & Hr).
    split; [exact Hp|]. split; [rewrite Hi; exact Himage|]. right.
    split; [now left|]. now split.
Qed.

(** X16: a request that [handleSubmit] sends ends with the full prompt
    built from the description, and carries a picture only as the second
    comma-separated field of the data URL read from the chosen file, and
    only when that field is not empty; a file that cannot be read, or
    whose data URL has no such field, never reaches the service. *)
Theorem handleSubmit_request :
  forall (c : Component) (parts : list RequestPart),
    In parts (fst (handleSubmit ai generateContent trim JSONparse t c)) ->
    ai <> None /\
    fst (handleSubmit ai generateContent trim JSONparse t c) = [parts] /\
    (parts = [Text (fullPrompt (prompt c))] \/
     exists file url payload,
       image c = Some file /\
       readAsDataURL file = Some url /\
       secondField url = Some payload /\
       payload <> EmptyString /\
       parts = [InlineData "image/jpeg" payload;
                Text (fullPrompt (prompt c))]).
Proof.
  intros c parts. unfold handleSubmit.
  assert (Hcall : forall imageBase64,
             In parts
               (fst (match getDeviceSettingsForMaterial JSON
                             generateContent trim JSONparse ai
                             (fullPrompt (prompt c)) imageBase64 with
                     | (sent, inr settings) =>
                         (sent, settled c "" settings)
                     | (sent, inl message) =>
                         (sent, settled c (shown (Some message)) JNull)
                     end)) ->
             ai <> None /\
             fst (match getDeviceSettingsForMaterial JSON
                          generateContent trim JSONparse ai
                          (fullPrompt (prompt c)) imageBase64 with
                  | (sent, inr settings) =>
                      (sent, settled c "" settings)
                  | (sent, inl message) =>
                      (sent, settled c (shown (Some message)) JNull)
                  end) = [parts] /\
             parts = requestParts (fullPrompt (prompt c)) imageBase64).
  { intros imageBase64.
    pose proof (getDeviceSettingsForMaterial_cases JSON
                  generateContent trim JSONparse ai (fullPrompt (prompt c))
                  imageBase64) as Hsent.
    destruct (getDeviceSettingsForMaterial JSON generateContent
                trim JSONparse ai (fullPrompt (prompt c)) imageBase64)
      as [sent [message|settings]]; cbv zeta in Hsent; cbn [fst].
    - destruct Hsent as [(_ & -> & _)|(Hai & -> & _)]; intros Hin;
        [destruct Hin|].
      destruct Hin as [<-|[]]. now repeat split.
    - destruct Hsent as (Hai & -> & _). intros [<-|[]]. now repeat split. }
  assert (Hshape : forall imageBase64,
             requestParts (fullPrompt (prompt c)) imageBase64
             = [Text (fullPrompt (prompt c))] \/
             exists payload,
               imageBase64 = Some payload /\ payload <> EmptyString /\
               requestParts (fullPrompt (prompt c)) imageBase64
               = [InlineData "image/jpeg" payload;
                  Text (fullPrompt (prompt c))]).
  { intros imageBase64.
    destruct (requestParts_shape (fullPrompt (prompt c)) imageBase64)
      as [Hone|(image & H1 & H2 & H3)];
      [now left|right; now exists image]. }
  destruct (String.eqb (prompt c) ""); destruct (image c) as [file|] eqn:Hfile;
    try (destruct (readAsDataURL file) as [url|] eqn:Hurl);
    cbn [fst]; try (intros []);
    intros Hin;
    match type of Hin with
    | context [getDeviceSettingsForMaterial _ _ _ _ _ _ ?i] =>
        destruct (Hcall i Hin) as (Hai & Hsent & ->);
        split; [exact Hai|]; split; [exact Hsent|];
        destruct (Hshape i) as [Hone|(payload & Hpayload & Hne & Htwo)];
        [now left|]
    end.
  - right. exists file, url, payload. now repeat split.
  - right. exists file, url, payload. now repeat split.
  - discriminate.
Qed.

End Form.

(** A text without a comma has no second field, and is its own first. *)
Lemma untilComma_whole (s : string) : afterComma s = None -> untilComma s = s.
Proof.
  induction s as [|c s IH]; simpl; [reflexivity|].
  destruct (Ascii.eqb c comma); [discriminate|].
  intros H. now rewrite IH.
Qed.

Lemma afterComma_append (header payload : string) :
  afterComma header = None ->
  afterComma (header ++ String comma payload) = Some payload.
Proof.
  induction header as [|c s IH]; simpl.
  - intros _. reflexivity.
  - destruct (Ascii.eqb c comma); [discriminate|exact IH].
Qed.

(** X17: [secondField], the [split(',')[1]] applied to the data URL of
    the picture, gives back the payload of a URL made of a header, a comma
    and a payload when neither has a comma of its own, and gives nothing for
    a text without a comma. *)
Theorem secondField_payload :
  forall header payload : string,
    afterComma header = None ->
    afterComma payload = None ->
    secondField (header ++ String comma payload) = Some payload /\
    secondField header = None.
Proof.
  intros header payload Hheader Hpayload. unfold secondField. split.
  - rewrite afterComma_append by assumption. simpl.
    now rewrite untilComma_whole.
  - now rewrite Hheader.
Qed.

(** X17 on the data URL of a JPEG picture. *)
Lemma secondField_payload_witness :
  secondField "data:image/jpeg;base64,AAAA" = Some "AAAA"%string.
Proof.
  destruct (secondField_payload "data:image/jpeg;base64" "AAAA")
    as [Hpayload _]; [reflexivity|reflexivity|].
  exact Hpayload.
Defined.

(** X16 on the filled form of the examples. *)
Lemma handleSubmit_request_witness :
  fst (handleSubmit (Some (Client "key")) exampleGenerate exampleTrim
         exampleParse (fun key => key) filledForm)
  = [[InlineData "image/jpeg" "AAAA";
      Text (fullPrompt "PLA flakes")]].
Proof.
  destruct (handleSubmit_request (Some (Client "key")) exampleGenerate
              exampleTrim exampleParse (fun key => key) filledForm
              [InlineData "image/jpeg" "AAAA";
               Text (fullPrompt "PLA flakes")])
    as (_ & Hsent & _).
  - left. reflexivity.
  - exact Hsent.
Defined.

(** X14 on a request with a picture, answered by the service of the
    examples. *)
Lemma getDeviceSettingsForMaterial_outcomes_witness :
  getDeviceSettingsForMaterial JSON exampleGenerate exampleTrim
    exampleParse (Some (Client "key")) "PLA flakes" (Some "AAAA"%string)
  = ([[InlineData "image/jpeg" "AAAA"; Text "PLA flakes"]], inr suggestion).
Proof.
  pose proof (getDeviceSettingsForMaterial_outcomes JSON
                exampleGenerate exampleTrim exampleParse
                (Some (Client "key")) "PLA flakes" (Some "AAAA"%string))
    as [Hcall _].
  cbv zeta in Hcall.
  destruct (getDeviceSettingsForMaterial JSON exampleGenerate
              exampleTrim exampleParse (Some (Client "key")) "PLA flakes"
              (Some "AAAA"%string))
    as [sent [message|settings]] eqn:Hrun.
  - vm_compute in Hrun. discriminate.
  - destruct Hcall as (_ & -> & text & Htext & Hparse).
    vm_compute in Htext. inversion Htext; subst.
    vm_compute in Hparse. inversion Hparse; subst. reflexivity.
Defined.

(** The service replies with the JSON text of [null]: one request, no
    result, no error. *)
Example handleSubmit_null_reply :
  let r :=
    handleSubmit (Some (Client "key")) nullGenerate exampleTrim exampleParse
      (fun key => key) filledForm in
  List.length (fst r) = 1%nat /\
  result (snd r) = JNull /\
  isTruthy (result (snd r)) = false /\
  error (snd r) = EmptyString /\
  isLoading (snd r) = false.
Proof. repeat split; reflexivity. Qed.

(** X15 on the filled form of the examples. *)
Lemma handleSubmit_outcomes_witness :
  isLoading
    (snd (handleSubmit (Some (Client "key")) exampleGenerate exampleTrim
            exampleParse (fun key => key) filledForm))
  = false.
Proof.
  destruct (handleSubmit_outcomes (Some (Client "key")) exampleGenerate
              exampleTrim exampleParse (fun key => key) filledForm)
    as (_ & _ & [(Hempty & _)|(_ & Hloading & _)]).
  - vm_compute in Hempty. discriminate.
  - exact Hloading.
Defined.

End DeviceControlFacts.
